(** * ripgrep-node: the command builder and the result decoder

    A shallow embedding of [dist/index.js]: the [RipGrep] class whose
    option methods accumulate command-line tokens, whose [run] method
    joins and executes the command, and whose [asString], [asJson] and
    [asObject] methods decode the captured output. *)

From Stdlib Require Import List String Ascii NArith Bool Arith Lia.
Import ListNotations.

Set Implicit Arguments.
Set Warnings "-register-all".
Open Scope N_scope.
Open Scope list_scope.

(** ** JavaScript strings

    A JavaScript string is a sequence of UTF-16 code units.  String
    literals of the source are written [lit "..."]. *)

Definition codeunit := N.
Definition jsstring := list codeunit.

Definition lit (s : string) : jsstring :=
  map N_of_ascii (list_ascii_of_string s).

(** The double quote, U+0022, and the line feed, U+000A (the ['\n'] of the
    source). *)
Definition dquote : codeunit := 34.
Definition newline : codeunit := 10.

(** The template [`"${s}"`]. *)
Definition quoted (s : jsstring) : jsstring := dquote :: s ++ [dquote].

(** A literal in which every apostrophe stands for a double quote; used to
    write JSON texts. *)
Definition jsonlit (s : string) : jsstring :=
  map (fun c => if c =? 39 then dquote else c) (lit s).

Fixpoint str_eqb (a b : jsstring) : bool :=
  match a, b with
  | [], [] => true
  | x :: a', y :: b' => (x =? y) && str_eqb a' b'
  | _, _ => false
  end.

(** [String.prototype.trim] strips WhiteSpace and LineTerminator code units
    from both ends: TAB, LF, VT, FF, CR, SP, NBSP, U+1680, U+2000..U+200A,
    U+2028, U+2029, U+202F, U+205F, U+3000 and U+FEFF. *)
Definition is_js_space (c : codeunit) : bool :=
  ((9 <=? c) && (c <=? 13)) || (c =? 32) || (c =? 160) || (c =? 5760)
  || ((8192 <=? c) && (c <=? 8202)) || (c =? 8232) || (c =? 8233)
  || (c =? 8239) || (c =? 8287) || (c =? 12288) || (c =? 65279).

Fixpoint trimStart (s : jsstring) : jsstring :=
  match s with
  | c :: s' => if is_js_space c then trimStart s' else s
  | [] => []
  end.

Definition trimEnd (s : jsstring) : jsstring := rev (trimStart (rev s)).

Definition trim (s : jsstring) : jsstring := trimEnd (trimStart s).

(** [String.prototype.split] with a separator of one code unit: the pieces
    between the occurrences of the separator, empty pieces included; the
    empty string splits into one empty piece. *)
Fixpoint split (sep : codeunit) (s : jsstring) : list jsstring :=
  match s with
  | [] => [[]]
  | c :: s' =>
      if c =? sep then [] :: split sep s'
      else match split sep s' with
           | piece :: pieces => (c :: piece) :: pieces
           | [] => [[c]]
           end
  end.

(** ** JavaScript arrays of strings *)

(** [Array.prototype.join]. *)
Fixpoint join (sep : jsstring) (a : list jsstring) : jsstring :=
  match a with
  | [] => []
  | [x] => x
  | x :: a' => x ++ sep ++ join sep a'
  end.

(** [Array.prototype.includes] on an array of strings: some element is
    equal to the searched string. *)
Definition includes (a : list jsstring) (x : jsstring) : bool :=
  existsb (str_eqb x) a.

(** [Array.prototype.push] of one element. *)
Definition push (a : list jsstring) (x : jsstring) : list jsstring :=
  a ++ [x].

(** ** Completions

    A call either returns normally or throws.  The exceptions of this
    program are the [Error] that the decoding views construct, the
    [SyntaxError] of [JSON.parse], the [TypeError] of reading a property of
    [null], and the error object that [execSync] throws for a child process
    that failed. *)

(** The error object of a failed [execSync]: the exit status and the two
    captured streams of the child, each possibly [undefined] ([None]).  A
    captured stream is represented by its text. *)
Record ExecError := mkExecError {
  status : option N;
  stdout : option jsstring;
  stderr : option jsstring
}.

(** What a child that exited with status 0 left in the two pipes, each
    stream represented by its text. *)
Record ChildOutput := mkChildOutput {
  child_stdout : jsstring;
  child_stderr : jsstring
}.

Inductive Exn :=
  | Error (message : jsstring)
  | SyntaxError
  | TypeError
  | ChildProcessError (error : ExecError).

Inductive Completion (A : Type) :=
  | Normal (a : A)
  | Throw (e : Exn).
Arguments Throw {A} e.

Definition cbind {A B} (c : Completion A) (k : A -> Completion B) : Completion B :=
  match c with
  | Normal a => k a
  | Throw e => Throw e
  end.

Declare Scope completion_scope.
Delimit Scope completion_scope with completion.
Notation "x <- c ;; k" := (cbind c (fun x => k))
  (at level 100, c at next level, right associativity) : completion_scope.

(** [ToBoolean] of what a filter callback of this program returns, a string
    ([Some]) or [undefined] ([None]): only a non-empty string is truthy. *)
Definition to_boolean (v : option jsstring) : bool :=
  match v with
  | Some [] => false
  | Some (_ :: _) => true
  | None => false
  end.

(** [Array.prototype.filter] with a callback that may throw: the elements
    are visited in order, an element is kept when the callback returns a
    truthy value, and a throwing callback aborts the whole call. *)
Fixpoint filter_array {A} (callback : A -> Completion (option jsstring))
  (a : list A) : Completion (list A) :=
  match a with
  | [] => Normal []
  | x :: a' =>
      (returned <- callback x ;;
       rest <- filter_array callback a' ;;
       Normal (if to_boolean returned then x :: rest else rest))%completion
  end.

(** [Array.prototype.map] with a callback that may throw. *)
Fixpoint map_array {A B} (callback : A -> Completion B) (a : list A)
  : Completion (list B) :=
  match a with
  | [] => Normal []
  | x :: a' =>
      (y <- callback x ;;
       rest <- map_array callback a' ;;
       Normal (y :: rest))%completion
  end.

(** ** JSON values *)

Inductive Json :=
  | JNull
  | JBool (b : bool)
  | JNumber (literal : jsstring)
  | JString (s : jsstring)
  | JArray (elements : list Json)
  | JObject (members : list (jsstring * Json)).

(** The member of an object that [JSON.parse] built: of two members with one
    key the later one wins. *)
Fixpoint lookup (key : jsstring) (members : list (jsstring * Json)) : option Json :=
  match members with
  | [] => None
  | (k, v) :: rest =>
      match lookup key rest with
      | Some v' => Some v'
      | None => if str_eqb k key then Some v else None
      end
  end.

(** The property read [data.key] on a parsed value, for a key that no
    prototype defines: [null] has no properties and the read throws; an
    object gives its member or [undefined] ([None]); every other value gives
    [undefined]. *)
Definition get_property (data : Json) (key : jsstring) : Completion (option Json) :=
  match data with
  | JNull => Throw TypeError
  | JObject members => Normal (lookup key members)
  | _ => Normal None
  end.

(** [v === s] for a string literal [s]. *)
Definition strict_equals (v : option Json) (s : jsstring) : bool :=
  match v with
  | Some (JString s') => str_eqb s' s
  | _ => false
  end.

(** ** A JSON parser

    A recursive-descent parser of the JSON grammar, an executable instance
    of [JSON.parse]: white space is SP, TAB, LF and CR; a number is kept as
    its literal. *)
Module JsonText.

Definition is_ws (c : codeunit) : bool :=
  (c =? 32) || (c =? 9) || (c =? 10) || (c =? 13).

Fixpoint skip_ws (s : jsstring) : jsstring :=
  match s with
  | c :: s' => if is_ws c then skip_ws s' else s
  | [] => []
  end.

Definition is_digit (c : codeunit) : bool := (48 <=? c) && (c <=? 57).

Fixpoint digits (s : jsstring) : jsstring * jsstring :=
  match s with
  | c :: s' => if is_digit c then let (d, r) := digits s' in (c :: d, r) else ([], s)
  | [] => ([], [])
  end.

Definition optional (test : codeunit -> bool) (s : jsstring) : jsstring * jsstring :=
  match s with
  | c :: s' => if test c then ([c], s') else ([], s)
  | [] => ([], [])
  end.

Definition some_digits (s : jsstring) : option (jsstring * jsstring) :=
  match digits s with
  | ([], _) => None
  | (d, r) => Some (d, r)
  end.

Definition int_part (s : jsstring) : option (jsstring * jsstring) :=
  match s with
  | c :: s' => if c =? 48 then Some ([c], s') else some_digits s
  | [] => None
  end.

Definition frac_part (s : jsstring) : option (jsstring * jsstring) :=
  match s with
  | c :: s' =>
      if c =? 46 then
        match some_digits s' with
        | Some (d, r) => Some (c :: d, r)
        | None => None
        end
      else Some ([], s)
  | [] => Some ([], [])
  end.

Definition exp_part (s : jsstring) : option (jsstring * jsstring) :=
  match s with
  | c :: s' =>
      if (c =? 101) || (c =? 69) then
        let (sign, r) := optional (fun x => (x =? 43) || (x =? 45)) s' in
        match some_digits r with
        | Some (d, r') => Some (c :: sign ++ d, r')
        | None => None
        end
      else Some ([], s)
  | [] => Some ([], [])
  end.

Definition number (s : jsstring) : option (jsstring * jsstring) :=
  let (sign, r0) := optional (fun x => x =? 45) s in
  match int_part r0 with
  | None => None
  | Some (i, r1) =>
      match frac_part r1 with
      | None => None
      | Some (f, r2) =>
          match exp_part r2 with
          | None => None
          | Some (e, r3) => Some (sign ++ i ++ f ++ e, r3)
          end
      end
  end.

Definition hex_value (c : codeunit) : option N :=
  if is_digit c then Some (c - 48)
  else if (97 <=? c) && (c <=? 102) then Some (c - 87)
  else if (65 <=? c) && (c <=? 70) then Some (c - 55)
  else None.

Definition hex4 (h1 h2 h3 h4 : codeunit) : option codeunit :=
  match hex_value h1, hex_value h2, hex_value h3, hex_value h4 with
  | Some a, Some b, Some c, Some d => Some (((a * 16 + b) * 16 + c) * 16 + d)
  | _, _, _, _ => None
  end.

Definition escape (e : codeunit) : option codeunit :=
  if e =? 34 then Some 34 else if e =? 92 then Some 92
  else if e =? 47 then Some 47 else if e =? 98 then Some 8
  else if e =? 102 then Some 12 else if e =? 110 then Some 10
  else if e =? 114 then Some 13 else if e =? 116 then Some 9
  else None.

Definition cons_unit (c : codeunit) (r : option (jsstring * jsstring))
  : option (jsstring * jsstring) :=
  match r with
  | Some (s, rest) => Some (c :: s, rest)
  | None => None
  end.

(** The characters of a string after its opening quote, up to and without
    the closing quote. *)
Fixpoint string_body (s : jsstring) : option (jsstring * jsstring) :=
  match s with
  | [] => None
  | c :: r =>
      if c =? 34 then Some ([], r)
      else if c <? 32 then None
      else if c =? 92 then
        match r with
        | [] => None
        | e :: r1 =>
            if e =? 117 then
              match r1 with
              | h1 :: h2 :: h3 :: h4 :: r2 =>
                  match hex4 h1 h2 h3 h4 with
                  | Some u => cons_unit u (string_body r2)
                  | None => None
                  end
              | _ => None
              end
            else
              match escape e with
              | Some u => cons_unit u (string_body r1)
              | None => None
              end
        end
      else cons_unit c (string_body r)
  end.

Fixpoint strip_prefix (p s : jsstring) : option jsstring :=
  match p, s with
  | [], _ => Some s
  | x :: p', y :: s' => if x =? y then strip_prefix p' s' else None
  | _ :: _, [] => None
  end.

Definition keyword (s : jsstring) : option (Json * jsstring) :=
  match strip_prefix (lit "true") s with
  | Some r => Some (JBool true, r)
  | None =>
      match strip_prefix (lit "false") s with
      | Some r => Some (JBool false, r)
      | None =>
          match strip_prefix (lit "null") s with
          | Some r => Some (JNull, r)
          | None => None
          end
      end
  end.

Fixpoint value (fuel : nat) (s : jsstring) : option (Json * jsstring) :=
  match fuel with
  | O => None
  | S fuel' =>
      match skip_ws s with
      | [] => None
      | c :: r =>
          if c =? 123 then
            match skip_ws r with
            | c' :: r' =>
                if c' =? 125 then Some (JObject [], r')
                else members fuel' (c' :: r') []
            | [] => None
            end
          else if c =? 91 then
            match skip_ws r with
            | c' :: r' =>
                if c' =? 93 then Some (JArray [], r')
                else elements fuel' (c' :: r') []
            | [] => None
            end
          else if c =? 34 then
            match string_body r with
            | Some (str, r') => Some (JString str, r')
            | None => None
            end
          else
            match keyword (c :: r) with
            | Some k => Some k
            | None =>
                match number (c :: r) with
                | Some (n, r') => Some (JNumber n, r')
                | None => None
                end
            end
      end
  end
with elements (fuel : nat) (s : jsstring) (acc : list Json)
  : option (Json * jsstring) :=
  match fuel with
  | O => None
  | S fuel' =>
      match value fuel' s with
      | None => None
      | Some (v, r) =>
          match skip_ws r with
          | c :: r' =>
              if c =? 44 then elements fuel' r' (v :: acc)
              else if c =? 93 then Some (JArray (rev (v :: acc)), r')
              else None
          | [] => None
          end
      end
  end
with members (fuel : nat) (s : jsstring) (acc : list (jsstring * Json))
  : option (Json * jsstring) :=
  match fuel with
  | O => None
  | S fuel' =>
      match skip_ws s with
      | c :: r =>
          if c =? 34 then
            match string_body r with
            | Some (key, r1) =>
                match skip_ws r1 with
                | c1 :: r2 =>
                    if c1 =? 58 then
                      match value fuel' r2 with
                      | Some (v, r3) =>
                          match skip_ws r3 with
                          | c3 :: r4 =>
                              if c3 =? 44 then members fuel' r4 ((key, v) :: acc)
                              else if c3 =? 125
                                   then Some (JObject (rev ((key, v) :: acc)), r4)
                                   else None
                          | [] => None
                          end
                      | None => None
                      end
                    else None
                | [] => None
                end
            | None => None
            end
          else None
      | [] => None
      end
  end.

(** The whole text must be one value between optional white space. *)
Definition parse (text : jsstring) : Completion Json :=
  match value (2 * List.length text + 2) text with
  | Some (v, r) =>
      match skip_ws r with
      | [] => Normal v
      | _ :: _ => Throw SyntaxError
      end
  | None => Throw SyntaxError
  end.

End JsonText.

(** ** The option methods

    One constructor per option method of the class, with the method's name.
    An argument enters a token only through a template literal, so a call
    carries the string the template interpolates. *)
Module Opt.

Inductive t :=
  | afterContext (num : jsstring)
  | autoHybridRegex
  | beforeContext (num : jsstring)
  | binary
  | blockBuffered
  | byteOffset
  | caseSensitive
  | color (when : jsstring)
  | colors (colorSpec : jsstring)
  | column
  | context (num : jsstring)
  | contextSeparator (separator : jsstring)
  | count
  | countMatches
  | crlf
  | debug
  | dfaSizeLimit (num_suffix : jsstring)
  | encoding (encoding_ : jsstring)
  | file (pattern : jsstring)
  | files
  | filesWithMatches
  | filesWithoutMatch
  | fixedStrings
  | follow
  | glob (pattern : jsstring)
  | heading
  | hidden
  | iglob (iglob_ : jsstring)
  | ignoreCase
  | ignoreFile (path : jsstring)
  | ignoreFileCaseInsensitive
  | invertMatch
  | json
  | lineBuffered
  | lineNumber
  | lineRegexp
  | maxColumns (num : jsstring)
  | maxColumnsPreview
  | maxCount (num : jsstring)
  | maxDepth (num : jsstring)
  | maxFilesize (num_suffix : jsstring)
  | mmap
  | multiline
  | multilineDotall
  | noConfig
  | noFilename
  | noHeading
  | noIgnore
  | noIgnoreDot
  | noIgnoreGlobal
  | noIgnoreMessages
  | noIgnoreParent
  | noIgnoreVcs
  | noLineNumber
  | noMessages
  | noMmap
  | noPcre2Unicode
  | null_
  | nullData
  | oneFileSystem
  | onlyMatching
  | passthru
  | pathSeparator (seperator : jsstring)
  | pcre2
  | pcre2Version
  | pre (command : jsstring)
  | preGlob (glob_ : jsstring)
  | pretty
  | quite
  | regexSizeLimit (num_suffix : jsstring)
  | regexp (pattern : jsstring)
  | replace (text_ : jsstring)
  | searchZip
  | smartCase
  | sort (by_ : jsstring)
  | sortr (by_ : jsstring)
  | status
  | text
  | threads (num : jsstring)
  | trim
  | type (type_ : jsstring)
  | typeAdd (type_spec : jsstring)
  | typeClear (type_ : jsstring)
  | typeList
  | typeNot (type_ : jsstring)
  | unrestricted
  | vimgrep
  | withFilename
  | wordRegexp.

(** The token the method pushes. *)
Definition token (o : t) : jsstring :=
  match o with
  | afterContext num => lit "--after-context " ++ num
  | autoHybridRegex => lit "--auto-hybrid-regex"
  | beforeContext num => lit "--before-context " ++ num
  | binary => lit "--binary"
  | blockBuffered => lit "--block-buffered"
  | byteOffset => lit "--byte-offset"
  | caseSensitive => lit "--case-sensitive"
  | color when => lit "--color " ++ when
  | colors colorSpec => lit "--colors " ++ quoted colorSpec
  | column => lit "--column"
  | context num => lit "--context " ++ num
  | contextSeparator separator => lit "--context-separator " ++ quoted separator
  | count => lit "--count"
  | countMatches => lit "--count-matches"
  | crlf => lit "--crlf"
  | debug => lit "--debug"
  | dfaSizeLimit num_suffix => lit "--dfa-size-limir " ++ quoted num_suffix
  | encoding encoding_ => lit "--encoding " ++ quoted encoding_
  | file pattern => lit "--file " ++ quoted pattern
  | files => lit "--files"
  | filesWithMatches => lit "--files-with-matches"
  | filesWithoutMatch => lit "--files-without-match"
  | fixedStrings => lit "--fixed-strings"
  | follow => lit "--follow"
  | glob pattern => lit "--glob " ++ quoted pattern
  | heading => lit "--heading"
  | hidden => lit "--hidden"
  | iglob iglob_ => lit "--iglob " ++ quoted iglob_
  | ignoreCase => lit "--ignore-case"
  | ignoreFile path => lit "--ignore-file " ++ quoted path
  | ignoreFileCaseInsensitive => lit "--ignore-file-case-insensitive"
  | invertMatch => lit "--invert-match"
  | json => lit "--json"
  | lineBuffered => lit "--line-buffered"
  | lineNumber => lit "--line-number"
  | lineRegexp => lit "--line-regexp"
  | maxColumns num => lit "--max-columns " ++ num
  | maxColumnsPreview => lit "--max-columns-preview"
  | maxCount num => lit "--max-count " ++ num
  | maxDepth num => lit "--max-depth " ++ num
  | maxFilesize num_suffix => lit "--max-filesize " ++ quoted num_suffix
  | mmap => lit "--mmap"
  | multiline => lit "--multiline"
  | multilineDotall => lit "--multiline-dotall"
  | noConfig => lit "--no-config"
  | noFilename => lit "--no-filename"
  | noHeading => lit "--no-heading"
  | noIgnore => lit "--no-ignore"
  | noIgnoreDot => lit "--no-ignore-dot"
  | noIgnoreGlobal => lit "--no-ignore-global"
  | noIgnoreMessages => lit "--no-ignore-messages"
  | noIgnoreParent => lit "--no-ignore-parent"
  | noIgnoreVcs => lit "--no-ignore-vcs"
  | noLineNumber => lit "--no-line-number"
  | noMessages => lit "--no-messages"
  | noMmap => lit "--no-mmap"
  | noPcre2Unicode => lit "--no-pcre2-unicode"
  | null_ => lit "--null"
  | nullData => lit "--null-data"
  | oneFileSystem => lit "--one-file-system"
  | onlyMatching => lit "--only-matching"
  | passthru => lit "--passthru"
  | pathSeparator seperator => lit "--path-separator " ++ quoted seperator
  | pcre2 => lit "--pcre2"
  | pcre2Version => lit "--pcre2-version"
  | pre command => lit "--pre " ++ quoted command
  | preGlob glob_ => lit "--pre-glob " ++ quoted glob_
  | pretty => lit "--pretty"
  | quite => lit "--quite"
  | regexSizeLimit num_suffix => lit "--regex-size-limit " ++ quoted num_suffix
  | regexp pattern => lit "--regexp " ++ quoted pattern
  | replace text_ => lit "--replace " ++ quoted text_
  | searchZip => lit "--search-zip"
  | smartCase => lit "--smart-case"
  | sort by_ => lit "--sort " ++ by_
  | sortr by_ => lit "--sortr " ++ by_
  | status => lit "--stats"
  | text => lit "--text"
  | threads num => lit "--threads " ++ num
  | trim => lit "--trim"
  | type type_ => lit "--type " ++ quoted type_
  | typeAdd type_spec => lit "--type-add " ++ quoted type_spec
  | typeClear type_ => lit "--type-clear " ++ quoted type_
  | typeList => lit "--type-list"
  | typeNot type_ => lit "--type-not " ++ quoted type_
  | unrestricted => lit "--unrestricted"
  | vimgrep => lit "--vim-grep"
  | withFilename => lit "--with-filename"
  | wordRegexp => lit "--word-regexp"
  end.

(** [pcre2Version] and [typeList] first assign the empty string to the
    pattern and to the path. *)
Definition clears_target (o : t) : bool :=
  match o with
  | pcre2Version | typeList => true
  | _ => false
  end.

End Opt.

(** ** The instance and its environment *)

Record RipGrep := mkRipGrep {
  pattern : jsstring;
  path : jsstring;
  rgPath : jsstring;
  output : jsstring;
  command : list jsstring
}.

(** A parameter with a default value: the argument, or the default when the
    argument is omitted ([None]). *)
Definition default_arg (arg : option jsstring) (default : jsstring) : jsstring :=
  match arg with
  | Some a => a
  | None => default
  end.

(** [new RipGrep(pattern, path, rgPath = 'rg')]. *)
Definition constructor (pattern path : jsstring) (rgPath : option jsstring)
  : RipGrep :=
  let rgPath := default_arg rgPath (lit "rg") in
  {| pattern := quoted pattern;
     path := path;
     rgPath := rgPath;
     output := [];
     command := [rgPath] |}.

Definition set_pattern (v : jsstring) (r : RipGrep) : RipGrep :=
  mkRipGrep v (path r) (rgPath r) (output r) (command r).

Definition set_path (v : jsstring) (r : RipGrep) : RipGrep :=
  mkRipGrep (pattern r) v (rgPath r) (output r) (command r).

Definition set_output (v : jsstring) (r : RipGrep) : RipGrep :=
  mkRipGrep (pattern r) (path r) (rgPath r) v (command r).

(** [this.command.push(x)]. *)
Definition command_push (x : jsstring) (r : RipGrep) : RipGrep :=
  mkRipGrep (pattern r) (path r) (rgPath r) (output r) (push (command r) x).

(** The store a method runs in: the instance, what [console.log] has
    printed so far ([None] for [undefined]), the command lines handed to
    [execSync] so far, and what has been written to the standard error of
    the process so far. *)
Record Store := mkStore {
  this : RipGrep;
  console : list (option jsstring);
  spawned : list jsstring;
  process_stderr : jsstring
}.

Definition initial (r : RipGrep) : Store := mkStore r [] [] [].

(** What a method returns: the receiver, a string, or an array. *)
Inductive Value :=
  | VThis
  | VString (s : jsstring)
  | VStrings (a : list jsstring)
  | VObjects (a : list Json).

(** A method is a store transformer that returns or throws. *)
Definition M (A : Type) : Type := Store -> Completion A * Store.

Definition ret {A} (a : A) : M A := fun s => (Normal a, s).

Definition bind {A B} (m : M A) (k : A -> M B) : M B :=
  fun s =>
    match m s with
    | (Normal a, s') => k a s'
    | (Throw e, s') => (Throw e, s')
    end.

Definition throw {A} (e : Exn) : M A := fun s => (Throw e, s).

Definition lift {A} (c : Completion A) : M A := fun s => (c, s).

(** [try { body } catch (error) { handler }]. *)
Definition try_catch {A} (body : M A) (handler : Exn -> M A) : M A :=
  fun s =>
    match body s with
    | (Normal a, s') => (Normal a, s')
    | (Throw e, s') => handler e s'
    end.

Definition read {A} (field : RipGrep -> A) : M A :=
  fun s => (Normal (field (this s)), s).

Definition assign (update : RipGrep -> RipGrep) : M unit :=
  fun s =>
    (Normal tt,
     mkStore (update (this s)) (console s) (spawned s) (process_stderr s)).

Definition console_log (v : option jsstring) : M unit :=
  fun s =>
    (Normal tt,
     mkStore (this s) (console s ++ [v]) (spawned s) (process_stderr s)).

Declare Scope method_scope.
Delimit Scope method_scope with method.
Notation "x <- m ;; k" := (bind m (fun x => k))
  (at level 100, m at next level, right associativity) : method_scope.
Notation "m ;; k" := (bind m (fun _ => k))
  (at level 100, right associativity) : method_scope.

(** [error.stdout] in the handler of [run]: the captured output of a failed
    child, [undefined] on any other exception. *)
Definition error_stdout (error : Exn) : option jsstring :=
  match error with
  | ChildProcessError e => stdout e
  | _ => None
  end.

(** The captured standard error an exception of [execSync] carries: the
    [stderr] field of the error of a failed child, none on any other
    exception. *)
Definition error_stderr (error : Exn) : option jsstring :=
  match error with
  | ChildProcessError e => stderr e
  | _ => None
  end.

(** The text a write of a captured stream adds: nothing when there is no
    stream. *)
Definition written (stream : option jsstring) : jsstring :=
  match stream with
  | Some text => text
  | None => []
  end.

(** An option method: the assignments of [pcre2Version] and [typeList],
    then one push, then [return this]. *)
Definition invoke (o : Opt.t) : M Value :=
  (if Opt.clears_target o
   then (assign (set_pattern []) ;; assign (set_path []) ;;
         assign (command_push (Opt.token o)) ;; ret VThis)
   else (assign (command_push (Opt.token o)) ;; ret VThis))%method.

(** ** Notions the properties are stated with *)

(** The instance an option method leaves: the fields it clears, then its
    token at the end of the command. *)
Definition after_option (o : Opt.t) (r : RipGrep) : RipGrep :=
  command_push (Opt.token o)
    (if Opt.clears_target o then set_path [] (set_pattern [] r) else r).

(** The instance after a chain of option calls only. *)
Fixpoint after_options (os : list Opt.t) (r : RipGrep) : RipGrep :=
  match os with
  | [] => r
  | o :: os' => after_options os' (after_option o r)
  end.

(** The instance [run] leaves before it executes, and the command line it
    executes. *)
Definition finalized (r : RipGrep) : RipGrep :=
  command_push (path r) (command_push (pattern r) r).

Definition rgCommand (r : RipGrep) : jsstring :=
  join (lit " ") (command (finalized r)).

(** The lines both views decode. *)
Definition lines (r : RipGrep) : list jsstring :=
  split newline (trim (output r)).

(** A parsed record whose [type] member is the string ['match']. *)
Definition is_match_record (v : Json) : bool :=
  match v with
  | JObject members => strict_equals (lookup (lit "type") members) (lit "match")
  | _ => false
  end.

(** No token of the command is ['--json'], the pattern is not, and, where
    [run] may still push it, the path is not. *)
Definition flag_free (path_too : bool) (r : RipGrep) : Prop :=
  Forall (fun t => t <> lit "--json") (command r) /\
  pattern r <> lit "--json" /\
  (path_too = true -> path r <> lit "--json").

Section Methods.

(** The two platform functions the class calls.  [JSON_parse] is
    [JSON.parse] on a string.  [execSync cmd] is the outcome of running the
    command line [cmd] to its end: the two captured streams of a child that
    exited with status 0, or the exception of a child that failed or could
    not be started. *)
Variable JSON_parse : jsstring -> Completion Json.
Variable execSync : jsstring -> Completion ChildOutput.

(** [child_process.execSync(cmd).toString()], called as the class calls it,
    with no [stdio] option: the captured standard error of the child is
    written to the standard error of the process, whether the child
    succeeded or failed; then the call returns the captured output as text
    or throws. *)
Definition child_process_execSync (cmd : jsstring) : M jsstring :=
  fun s =>
    match execSync cmd with
    | Normal child =>
        (Normal (child_stdout child),
         mkStore (this s) (console s) (spawned s ++ [cmd])
           (process_stderr s ++ child_stderr child))
    | Throw e =>
        (Throw e,
         mkStore (this s) (console s) (spawned s ++ [cmd])
           (process_stderr s ++ written (error_stderr e)))
    end.

Definition asString : M Value :=
  (out <- read output ;; ret (VString out))%method.

(** The callback of both filters:
    [(match) => { let data = JSON.parse(match);
                  if (data.type === 'match') { return match; } }]. *)
Definition filter_callback (match_ : jsstring) : Completion (option jsstring) :=
  (data <- JSON_parse match_ ;;
   type <- get_property data (lit "type") ;;
   Normal (if strict_equals type (lit "match") then Some match_ else None)
  )%completion.

Definition asObject : M Value :=
  (c <- read command ;;
   if negb (includes c (lit "--json"))
   then throw (Error (lit "The json() method needs to be added"))
   else
     out <- read output ;;
     kept <- lift (filter_array filter_callback (split newline (trim out))) ;;
     o <- lift (map_array JSON_parse kept) ;;
     ret (VObjects o))%method.

Definition asJson : M Value :=
  (c <- read command ;;
   if negb (includes c (lit "--json"))
   then throw (Error (lit "The json() method needs to be added"))
   else
     out <- read output ;;
     o <- lift (filter_array filter_callback (split newline (trim out))) ;;
     ret (VStrings o))%method.

Definition run : M Value :=
  (p <- read pattern ;;
   assign (command_push p) ;;
   q <- read path ;;
   assign (command_push q) ;;
   c <- read command ;;
   let rgCommand := join (lit " ") c in
   try_catch
     (out <- child_process_execSync rgCommand ;; assign (set_output out))
     (fun error => console_log (error_stdout error)) ;;
   ret VThis)%method.

(** A chain of calls [rg.a().b()...]: option methods and [run]. *)
Inductive Call :=
  | Option_ (o : Opt.t)
  | Run.

Definition call (c : Call) : M Value :=
  match c with
  | Option_ o => invoke o
  | Run => run
  end.

Fixpoint chain (cs : list Call) : M Value :=
  match cs with
  | [] => ret VThis
  | c :: cs' => (call c ;; chain cs')%method
  end.

(** A line that parses to a match record. *)
Definition is_match_line (l : jsstring) : bool :=
  match JSON_parse l with
  | Normal v => is_match_record v
  | Throw _ => false
  end.

(** A line for which the filter callback returns a truthy value. *)
Definition retained (l : jsstring) : bool :=
  match filter_callback l with
  | Normal v => to_boolean v
  | Throw _ => false
  end.

End Methods.

(** The positions, counted from [i], of the lines that satisfy [keep]. *)
Fixpoint positions (keep : jsstring -> bool) (i : nat) (ls : list jsstring)
  : list nat :=
  match ls with
  | [] => []
  | l :: ls' =>
      if keep l then i :: positions keep (S i) ls'
      else positions keep (S i) ls'
  end.

(** ** Notions for chains and outputs *)

Definition is_run (c : Call) : bool :=
  match c with
  | Run => true
  | Option_ _ => false
  end.

(** A call of [pcre2Version] or [typeList]. *)
Definition clears (c : Call) : bool :=
  match c with
  | Option_ o => Opt.clears_target o
  | Run => false
  end.

(** A line as the search tool prints a record: not empty, no line feed
    inside, and neither its first nor its last code unit is white space. *)
Definition tight (l : jsstring) : bool :=
  match l, rev l with
  | a :: _, b :: _ =>
      negb (is_js_space a) && negb (is_js_space b)
      && negb (existsb (N.eqb newline) l)
  | _, _ => false
  end.

(** ** Sample data *)

(** A child that exits with status 2, nothing on its standard output and a
    message on its standard error. *)
Definition no_such_file : ExecError :=
  {| status := Some 2;
     stdout := Some [];
     stderr := Some (lit "rg: /nonexistent: No such file or directory") |}.

(** An [execSync] whose child always fails that way. *)
Definition failing_child (cmd : jsstring) : Completion ChildOutput :=
  Throw (ChildProcessError no_such_file).

(** A child that exits with status 0 after printing [out], with nothing on
    its standard error. *)
Definition prints (out : jsstring) : ChildOutput :=
  {| child_stdout := out; child_stderr := [] |}.

(** An output of three records, the second one a match. *)
Definition three_records : jsstring :=
  jsonlit "{'type':'begin','data':{'path':{'text':'a.txt'}}}
{'type':'match','data':{'path':{'text':'a.txt'},'line_number':3}}
{'type':'end','data':{}}
".

(** An output whose second line is cut short. *)
Definition cut_short : jsstring :=
  jsonlit "{'type':'match','data':{}}
{'type':'mat".

(** * Properties *)

Unset Implicit Arguments.

(** ** Strings and arrays *)

Lemma str_eqb_eq (a b : jsstring) : str_eqb a b = true <-> a = b.
Proof.
  revert b; induction a as [|x a IH]; intros [|y b]; simpl;
    try (split; [discriminate | discriminate]); try tauto.
  rewrite andb_true_iff, N.eqb_eq, IH.
  split; [intros [-> ->]; reflexivity | intros H; injection H; auto].
Qed.

Lemma includes_In (a : list jsstring) (x : jsstring) :
  includes a x = true <-> In x a.
Proof.
  unfold includes. rewrite existsb_exists. split.
  - intros [y [Hy E]]. apply str_eqb_eq in E. subst. exact Hy.
  - intros H. exists x. split; [exact H | apply str_eqb_eq; reflexivity].
Qed.

Lemma includes_false (a : list jsstring) (x : jsstring) :
  Forall (fun t => t <> x) a -> includes a x = false.
Proof.
  intros H. destruct (includes a x) eqn:E; [|reflexivity].
  apply includes_In in E. rewrite Forall_forall in H.
  exfalso. exact (H x E eq_refl).
Qed.

Lemma join_snoc (sep : jsstring) (a : list jsstring) (x y : jsstring) :
  join sep ((x :: a) ++ [y]) = join sep (x :: a) ++ sep ++ y.
Proof.
  revert x; induction a as [|z a IH]; intros x.
  - reflexivity.
  - change (join sep ((x :: z :: a) ++ [y]))
      with (x ++ sep ++ join sep ((z :: a) ++ [y])).
    rewrite IH. change (join sep (x :: z :: a)) with (x ++ sep ++ join sep (z :: a)).
    rewrite <- !app_assoc. reflexivity.
Qed.

(** ** The option table *)

(** [json] is the only option method whose token is ['--json']. *)
Lemma token_json (o : Opt.t) : Opt.token o = lit "--json" -> o = Opt.json.
Proof.
  destruct o; intros H; try reflexivity; exfalso; cbv in H; discriminate H.
Qed.

Lemma quoted_not_json (s : jsstring) : quoted s <> lit "--json".
Proof. intros H; cbv in H; discriminate H. Qed.

Lemma empty_not_json : @nil codeunit <> lit "--json".
Proof. intros H; cbv in H; discriminate H. Qed.

(** ** What one call does *)

Lemma invoke_eq (o : Opt.t) (s : Store) :
  invoke o s =
  (Normal VThis,
   mkStore (after_option o (this s)) (console s) (spawned s)
     (process_stderr s)).
Proof.
  unfold invoke, after_option. destruct (Opt.clears_target o); reflexivity.
Qed.

Section Calls.

Variable execSync : jsstring -> Completion ChildOutput.

Lemma run_eq (s : Store) :
  run execSync s =
  match execSync (rgCommand (this s)) with
  | Normal child =>
      (Normal VThis,
       mkStore (set_output (child_stdout child) (finalized (this s)))
         (console s) (spawned s ++ [rgCommand (this s)])
         (process_stderr s ++ child_stderr child))
  | Throw e =>
      (Normal VThis,
       mkStore (finalized (this s)) (console s ++ [error_stdout e])
         (spawned s ++ [rgCommand (this s)])
         (process_stderr s ++ written (error_stderr e)))
  end.
Proof.
  unfold run, bind, try_catch, read, assign, child_process_execSync, ret,
    console_log, rgCommand, finalized; simpl.
  destruct (execSync _); reflexivity.
Qed.

(** No call of a chain throws, and each returns the receiver. *)
Lemma call_returns_this (c : Call) (s : Store) :
  fst (call execSync c s) = Normal VThis.
Proof.
  destruct c as [o|]; simpl.
  - rewrite invoke_eq. reflexivity.
  - rewrite run_eq. destruct (execSync _); reflexivity.
Qed.

Lemma chain_returns_this (cs : list Call) (s : Store) :
  fst (chain execSync cs s) = Normal VThis.
Proof.
  revert s; induction cs as [|c cs IH]; intros s; simpl.
  - reflexivity.
  - unfold bind. pose proof (call_returns_this c s) as H.
    destruct (call execSync c s) as [[v|e] s']; simpl in H; try discriminate.
    apply IH.
Qed.

Lemma chain_cons (c : Call) (cs : list Call) (s : Store) :
  snd (chain execSync (c :: cs) s) =
  snd (chain execSync cs (snd (call execSync c s))).
Proof.
  simpl. unfold bind. pose proof (call_returns_this c s) as H.
  destruct (call execSync c s) as [[v|e] s']; simpl in H; try discriminate.
  reflexivity.
Qed.

Lemma chain_app (cs1 cs2 : list Call) (s : Store) :
  snd (chain execSync (cs1 ++ cs2) s) =
  snd (chain execSync cs2 (snd (chain execSync cs1 s))).
Proof.
  revert s; induction cs1 as [|c cs1 IH]; intros s.
  - reflexivity.
  - rewrite <- app_comm_cons, !chain_cons. apply IH.
Qed.

Lemma chain_options (os : list Opt.t) (s : Store) :
  snd (chain execSync (map Option_ os) s) =
  mkStore (after_options os (this s)) (console s) (spawned s)
    (process_stderr s).
Proof.
  revert s; induction os as [|o os IH]; intros s.
  - destruct s; reflexivity.
  - change (map Option_ (o :: os)) with (Option_ o :: map Option_ os).
    rewrite chain_cons. simpl call. rewrite invoke_eq. simpl snd.
    rewrite IH. reflexivity.
Qed.

Lemma after_options_command (os : list Opt.t) (r : RipGrep) :
  command (after_options os r) = command r ++ map Opt.token os.
Proof.
  revert r; induction os as [|o os IH]; intros r; simpl.
  - rewrite app_nil_r. reflexivity.
  - rewrite IH. unfold after_option, command_push, push; simpl.
    destruct (Opt.clears_target o); simpl; rewrite <- app_assoc; reflexivity.
Qed.

Lemma after_options_output (os : list Opt.t) (r : RipGrep) :
  output (after_options os r) = output r.
Proof.
  revert r; induction os as [|o os IH]; intros r; simpl.
  - reflexivity.
  - rewrite IH. unfold after_option. destruct (Opt.clears_target o); reflexivity.
Qed.

(** Without [pcre2Version] and [typeList] the pattern and the path stay as
    the constructor set them. *)
Lemma after_options_keeps_target (os : list Opt.t) (r : RipGrep) :
  Forall (fun o => Opt.clears_target o = false) os ->
  pattern (after_options os r) = pattern r /\
  path (after_options os r) = path r.
Proof.
  intros H; revert r; induction H as [|o os Ho _ IH]; intros r; simpl.
  - split; reflexivity.
  - destruct (IH (after_option o r)) as [-> ->].
    unfold after_option. rewrite Ho. split; reflexivity.
Qed.

(** After [pcre2Version] or [typeList], whatever else was called, both are
    the empty string. *)
Lemma after_options_clears_target (os : list Opt.t) (r : RipGrep) :
  Exists (fun o => Opt.clears_target o = true) os ->
  pattern (after_options os r) = [] /\ path (after_options os r) = [].
Proof.
  assert (keep : forall os' r', pattern r' = [] /\ path r' = [] ->
            pattern (after_options os' r') = [] /\
            path (after_options os' r') = []).
  { induction os' as [|o os' IH]; intros r' Hr'; simpl.
    - exact Hr'.
    - apply IH. unfold after_option.
      destruct (Opt.clears_target o); simpl; [split; reflexivity | exact Hr']. }
  intros H; revert r; induction H as [o os Ho|o os _ IH]; intros r; simpl.
  - apply keep. unfold after_option. rewrite Ho. split; reflexivity.
  - apply IH.
Qed.

End Calls.

(** ** The accumulator *)

Section Accumulator.

Variable execSync : jsstring -> Completion ChildOutput.

Lemma call_extends (c : Call) (s : Store) :
  exists ext,
    command (this (snd (call execSync c s))) = command (this s) ++ ext /\
    rgPath (this (snd (call execSync c s))) = rgPath (this s).
Proof.
  destruct c as [o|]; simpl.
  - rewrite invoke_eq. exists [Opt.token o]. unfold after_option.
    destruct (Opt.clears_target o); split; reflexivity.
  - rewrite run_eq. exists [pattern (this s); path (this s)].
    destruct (execSync _); simpl; unfold push; rewrite <- app_assoc;
      split; reflexivity.
Qed.

Lemma chain_extends (cs : list Call) (s : Store) :
  exists ext,
    command (this (snd (chain execSync cs s))) = command (this s) ++ ext /\
    rgPath (this (snd (chain execSync cs s))) = rgPath (this s).
Proof.
  revert s; induction cs as [|c cs IH]; intros s.
  - exists []. rewrite app_nil_r. split; reflexivity.
  - rewrite chain_cons.
    destruct (call_extends c s) as [e1 [H1 R1]].
    destruct (IH (snd (call execSync c s))) as [e2 [H2 R2]].
    exists (e1 ++ e2). rewrite H2, H1, R2, R1, app_assoc. split; reflexivity.
Qed.

End Accumulator.

(** C9. In every state an option method returns the receiver and leaves the
    command one token longer, the earlier tokens, the output, the console
    and the executed commands untouched.  After any chain of calls on a new
    instance the first token is the executable path.  Before [run] the
    command is the executable path followed by the tokens of the option
    calls, whatever the pattern and the root path are; [run] appends the
    pattern and then the root path. *)
Theorem option_methods_append_one_token :
  (forall (o : Opt.t) (s : Store),
      exists r,
        invoke o s =
        (Normal VThis,
         mkStore r (console s) (spawned s) (process_stderr s)) /\
        command r = command (this s) ++ [Opt.token o] /\
        rgPath r = rgPath (this s) /\
        output r = output (this s)) /\
  (forall execSync pat dir exe (cs : list Call),
      exists tokens,
        command (this (snd (chain execSync cs
                              (initial (constructor pat dir exe))))) =
        default_arg exe (lit "rg") :: tokens) /\
  (forall execSync pat dir exe (os : list Opt.t),
      let s := snd (chain execSync (map Option_ os)
                      (initial (constructor pat dir exe))) in
      command (this s) = default_arg exe (lit "rg") :: map Opt.token os /\
      command (this (snd (run execSync s))) =
      command (this s) ++ [pattern (this s); path (this s)]).
Proof.
  split; [|split].
  - intros o s. exists (after_option o (this s)). rewrite invoke_eq.
    unfold after_option.
    destruct (Opt.clears_target o); repeat split; reflexivity.
  - intros execSync pat dir exe cs.
    destruct (chain_extends execSync cs
                (initial (constructor pat dir exe))) as [ext [H _]].
    exists ext. rewrite H. reflexivity.
  - intros execSync pat dir exe os s. subst s.
    rewrite chain_options. simpl this. split.
    + rewrite after_options_command. reflexivity.
    + rewrite run_eq. simpl this.
      destruct (execSync _); simpl; unfold push; rewrite <- app_assoc;
        reflexivity.
Qed.

(** ** The executed command line *)

Lemma run_after_options execSync (os : list Opt.t) (r : RipGrep) :
  spawned (snd (chain execSync (map Option_ os ++ [Run]) (initial r))) =
  [rgCommand (after_options os r)].
Proof.
  rewrite chain_app, chain_options, chain_cons. simpl call.
  rewrite run_eq. simpl this.
  destruct (execSync _); reflexivity.
Qed.

Lemma rgCommand_after_options (os : list Opt.t) pat dir exe :
  let r := after_options os (constructor pat dir exe) in
  rgCommand r =
  join (lit " ") (default_arg exe (lit "rg") :: map Opt.token os)
    ++ lit " " ++ pattern r ++ lit " " ++ path r.
Proof.
  intros r. unfold rgCommand, finalized, command_push, push; simpl command.
  subst r. rewrite after_options_command.
  set (r := after_options os (constructor pat dir exe)).
  change (command (constructor pat dir exe)) with [default_arg exe (lit "rg")].
  set (x := default_arg exe (lit "rg")). set (a := map Opt.token os).
  change (([x] ++ a) ++ [pattern r]) with ((x :: a) ++ [pattern r]).
  change (((x :: a) ++ [pattern r]) ++ [path r])
    with ((x :: (a ++ [pattern r])) ++ [path r]).
  rewrite join_snoc.
  change (x :: a ++ [pattern r]) with ((x :: a) ++ [pattern r]).
  rewrite join_snoc, <- !app_assoc. reflexivity.
Qed.

(** C8, amended. When neither [pcre2Version] nor [typeList] is among the
    option calls, the command line [run] executes is the executable path
    and the option tokens joined by single spaces, then a space, the pattern
    between double quotes, a space, and the root path as it was given. *)
Theorem run_command_line_shape execSync pat dir exe (os : list Opt.t) :
  Forall (fun o => Opt.clears_target o = false) os ->
  spawned (snd (chain execSync (map Option_ os ++ [Run])
                  (initial (constructor pat dir exe)))) =
  [join (lit " ") (default_arg exe (lit "rg") :: map Opt.token os)
     ++ lit " " ++ quoted pat ++ lit " " ++ dir].
Proof.
  intros H. rewrite run_after_options, rgCommand_after_options.
  destruct (after_options_keeps_target os (constructor pat dir exe) H)
    as [-> ->].
  reflexivity.
Qed.

(** [new RipGrep('he[l]{2}o', '/tmp/fixtures').withFilename().lineNumber().run()]. *)
Lemma run_command_line_shape_witness :
  Forall (fun o => Opt.clears_target o = false)
    [Opt.withFilename; Opt.lineNumber] /\
  spawned (snd (chain (fun _ => Normal (prints []))
                  (map Option_ [Opt.withFilename; Opt.lineNumber] ++ [Run])
                  (initial (constructor (lit "he[l]{2}o") (lit "/tmp/fixtures")
                              None)))) =
  [jsonlit "rg --with-filename --line-number 'he[l]{2}o' /tmp/fixtures"].
Proof.
  split.
  - repeat constructor.
  - apply (run_command_line_shape (fun _ => Normal (prints [])) (lit "he[l]{2}o")
             (lit "/tmp/fixtures") None [Opt.withFilename; Opt.lineNumber]).
    repeat constructor.
Defined.

(** C8 as stated fails after [pcre2Version]:
    [new RipGrep('a', 'b').pcre2Version().run()] executes the command line
    ['rg --pcre2-version  '], which has neither a quoted pattern nor a
    path. *)
Lemma run_command_line_shape_counterexample :
  let os := [Opt.pcre2Version] in
  let s := snd (chain (fun _ => Normal (prints [])) (map Option_ os ++ [Run])
                  (initial (constructor (lit "a") (lit "b") None))) in
  spawned s = [lit "rg --pcre2-version  "] /\
  spawned s <>
  [join (lit " ") (default_arg None (lit "rg") :: map Opt.token os)
     ++ lit " " ++ quoted (lit "a") ++ lit " " ++ lit "b"].
Proof.
  split.
  - reflexivity.
  - intros H. vm_compute in H. discriminate H.
Qed.

(** C2. When [pcre2Version] or [typeList] is among the option calls, in any
    position and whatever the other calls are, [run] appends two empty
    strings, and the command line it executes is the executable path and
    the option tokens joined by single spaces, followed by only the two
    separators: it carries neither the pattern nor the root path of the
    constructor. *)
Theorem informational_run_has_no_target execSync pat dir exe (os : list Opt.t) :
  In Opt.pcre2Version os \/ In Opt.typeList os ->
  let s := snd (chain execSync (map Option_ os)
                  (initial (constructor pat dir exe))) in
  let s' := snd (run execSync s) in
  pattern (this s) = [] /\
  path (this s) = [] /\
  command (this s') = command (this s) ++ [[]; []] /\
  spawned s' =
  [join (lit " ") (default_arg exe (lit "rg") :: map Opt.token os)
     ++ lit "  "].
Proof.
  intros H s s'.
  assert (E : Exists (fun o => Opt.clears_target o = true) os).
  { apply Exists_exists. destruct H as [H|H]; eexists; (split; [exact H|]);
      reflexivity. }
  pose proof (after_options_clears_target os (constructor pat dir exe) E)
    as [Hp Hq].
  subst s' s. rewrite chain_options. simpl this. simpl spawned.
  repeat split; try assumption.
  - rewrite run_eq. simpl this.
    destruct (execSync _); simpl; unfold push; rewrite Hp, Hq, <- app_assoc;
      reflexivity.
  - rewrite run_eq. simpl this. simpl spawned. simpl console.
    pose proof (rgCommand_after_options os pat dir exe) as R.
    cbv zeta in R. rewrite Hp, Hq in R.
    destruct (execSync _); simpl spawned; rewrite R; reflexivity.
Qed.

(** [new RipGrep('a', 'b').hidden().typeList().json().run()]. *)
Lemma informational_run_has_no_target_witness :
  let os := [Opt.hidden; Opt.typeList; Opt.json] in
  let s := snd (chain (fun _ => Normal (prints [])) (map Option_ os)
                  (initial (constructor (lit "a") (lit "b") None))) in
  let s' := snd (run (fun _ => Normal (prints [])) s) in
  (In Opt.pcre2Version os \/ In Opt.typeList os) /\
  command (this s') = command (this s) ++ [[]; []] /\
  spawned s' = [lit "rg --hidden --type-list --json  "].
Proof.
  intros os s s'.
  assert (H : In Opt.pcre2Version os \/ In Opt.typeList os).
  { right. simpl. right. left. reflexivity. }
  split; [exact H|].
  destruct (informational_run_has_no_target (fun _ => Normal (prints [])) (lit "a")
              (lit "b") None os H) as [_ [_ [Hc Hs]]].
  split; [exact Hc | exact Hs].
Defined.

(** ** Failure of the child process *)



(** C4. On a new instance, after any option calls, when [execSync] throws
    on the command line, whatever it throws, [run] returns normally, returns
    the receiver, and leaves the output the empty string. *)
Theorem run_catches_failure execSync pat dir exe (os : list Opt.t) (e : Exn) :
  let s := snd (chain execSync (map Option_ os)
                  (initial (constructor pat dir exe))) in
  execSync (rgCommand (this s)) = Throw e ->
  exists s',
    run execSync s = (Normal VThis, s') /\
    output (this s') = [] /\
    command (this s') = command (this s) ++ [pattern (this s); path (this s)].
Proof.
  intros s H. rewrite run_eq, H.
  eexists; split; [reflexivity|]. simpl this. split.
  - subst s. rewrite chain_options. simpl.
    rewrite after_options_output. reflexivity.
  - unfold finalized, command_push, push; simpl. rewrite <- app_assoc.
    reflexivity.
Qed.

(** [new RipGrep('x', '/nonexistent').json().run()] with a child that
    fails. *)
Lemma run_catches_failure_witness :
  let execSync := failing_child in
  let s := snd (chain execSync (map Option_ [Opt.json])
                  (initial (constructor (lit "x") (lit "/nonexistent") None))) in
  execSync (rgCommand (this s)) = Throw (ChildProcessError no_such_file) /\
  exists s',
    run execSync s = (Normal VThis, s') /\
    output (this s') = [] /\
    command (this s') = command (this s) ++ [pattern (this s); path (this s)].
Proof.
  intros execSync s. split.
  - reflexivity.
  - apply (run_catches_failure execSync (lit "x") (lit "/nonexistent") None
             [Opt.json] (ChildProcessError no_such_file)).
    reflexivity.
Defined.

(** ** The decoding views *)

Section Decoding.

Variable JSON_parse : jsstring -> Completion Json.

Lemma asJson_eq (s : Store) :
  asJson JSON_parse s =
  if includes (command (this s)) (lit "--json") then
    match filter_array (filter_callback JSON_parse) (lines (this s)) with
    | Normal kept => (Normal (VStrings kept), s)
    | Throw e => (Throw e, s)
    end
  else (Throw (Error (lit "The json() method needs to be added")), s).
Proof.
  unfold asJson, bind, read, lift, lines; simpl.
  destruct (includes _ _); simpl; [|reflexivity].
  destruct (filter_array _ _); reflexivity.
Qed.

Lemma asObject_eq (s : Store) :
  asObject JSON_parse s =
  if includes (command (this s)) (lit "--json") then
    match filter_array (filter_callback JSON_parse) (lines (this s)) with
    | Normal kept =>
        match map_array JSON_parse kept with
        | Normal objects => (Normal (VObjects objects), s)
        | Throw e => (Throw e, s)
        end
    | Throw e => (Throw e, s)
    end
  else (Throw (Error (lit "The json() method needs to be added")), s).
Proof.
  unfold asObject, bind, read, lift, lines; simpl.
  destruct (includes _ _); simpl; [|reflexivity].
  destruct (filter_array _ _); simpl; [|reflexivity].
  destruct (map_array _ _); reflexivity.
Qed.

(** The callback on a line that parses to a value other than [null]. *)
Lemma filter_callback_parsed (l : jsstring) (v : Json) :
  JSON_parse l = Normal v -> v <> JNull ->
  filter_callback JSON_parse l =
  Normal (if is_match_record v then Some l else None).
Proof.
  intros H Hv. unfold filter_callback. rewrite H. simpl.
  destruct v; try reflexivity. contradiction.
Qed.

Lemma filter_callback_throw (l : jsstring) (e : Exn) :
  JSON_parse l = Throw e -> filter_callback JSON_parse l = Throw e.
Proof.
  intros H. unfold filter_callback. rewrite H. reflexivity.
Qed.

(** A callback that returns normally has parsed its line. *)
Lemma filter_callback_normal (l : jsstring) (r : option jsstring) :
  filter_callback JSON_parse l = Normal r -> exists v, JSON_parse l = Normal v.
Proof.
  unfold filter_callback. destruct (JSON_parse l) as [v|e]; simpl.
  - intros _. exists v. reflexivity.
  - discriminate.
Qed.

(** A filter that returns has kept the lines the callback is truthy on, and
    every line has parsed. *)
Lemma filter_array_normal (ls kept : list jsstring) :
  filter_array (filter_callback JSON_parse) ls = Normal kept ->
  kept = filter (retained JSON_parse) ls /\
  Forall (fun l => exists v, JSON_parse l = Normal v) ls.
Proof.
  revert kept; induction ls as [|l ls IH]; intros kept; simpl.
  - intros H; injection H as <-. split; constructor.
  - unfold retained.
    destruct (filter_callback JSON_parse l) as [r|e] eqn:E; simpl;
      [|discriminate].
    destruct (filter_array _ ls) as [rest|e]; simpl; [|discriminate].
    intros H; injection H as <-.
    destruct (IH rest eq_refl) as [-> HF]. split.
    + destruct (to_boolean r); reflexivity.
    + constructor; [exact (filter_callback_normal l r E) | exact HF].
Qed.

Lemma map_array_parsed (ls : list jsstring) :
  Forall (fun l => exists v, JSON_parse l = Normal v) ls ->
  exists objects,
    map_array JSON_parse ls = Normal objects /\
    Forall2 (fun l o => JSON_parse l = Normal o) ls objects.
Proof.
  induction 1 as [|l ls [v Hv] _ [objects [IH IH2]]]; simpl.
  - exists []. split; constructor.
  - rewrite Hv, IH. simpl. exists (v :: objects). split; [reflexivity|].
    constructor; assumption.
Qed.

Lemma positions_filter (keep : jsstring -> bool) (before ls : list jsstring) :
  Forall2 (fun i l => nth_error (before ++ ls) i = Some l)
    (positions keep (List.length before) ls) (filter keep ls).
Proof.
  revert before; induction ls as [|l ls IH]; intros before; simpl.
  - constructor.
  - specialize (IH (before ++ [l])).
    rewrite <- app_assoc, length_app, Nat.add_1_r in IH. simpl in IH.
    destruct (keep l); [constructor|]; try exact IH.
    rewrite nth_error_app2, Nat.sub_diag by apply Nat.le_refl. reflexivity.
Qed.

(** When every line parses to a value other than [null] and the empty string
    is not a JSON text, the filter keeps exactly the match lines. *)
Lemma filter_array_match_lines (ls : list jsstring) :
  JSON_parse [] = Throw SyntaxError ->
  Forall (fun l => exists v, JSON_parse l = Normal v /\ v <> JNull) ls ->
  filter_array (filter_callback JSON_parse) ls =
  Normal (filter (is_match_line JSON_parse) ls).
Proof.
  intros Hempty. induction 1 as [|l ls [v [Hv Hn]] _ IH]; simpl.
  - reflexivity.
  - rewrite (filter_callback_parsed l v Hv Hn), IH. simpl.
    unfold is_match_line. rewrite Hv.
    destruct (is_match_record v); [|reflexivity].
    destruct l; [|reflexivity].
    rewrite Hempty in Hv. discriminate.
Qed.

(** The filter throws at the first line that does not parse, when the
    lines before it parse to values other than [null]. *)
Lemma filter_array_throw (good rest : list jsstring) (bad : jsstring) (e : Exn) :
  Forall (fun l => exists v, JSON_parse l = Normal v /\ v <> JNull) good ->
  JSON_parse bad = Throw e ->
  filter_array (filter_callback JSON_parse) (good ++ bad :: rest) = Throw e.
Proof.
  intros Hgood Hbad. induction Hgood as [|l good [v [Hv Hn]] _ IH]; simpl.
  - rewrite (filter_callback_throw bad e Hbad). reflexivity.
  - rewrite (filter_callback_parsed l v Hv Hn). simpl. rewrite IH. reflexivity.
Qed.

End Decoding.

(** ** The precondition of the decoding views *)

Section Precondition.

Variable execSync : jsstring -> Completion ChildOutput.

Lemma call_flag_free (path_too : bool) (c : Call) (s : Store) :
  c <> Option_ Opt.json ->
  (c = Run -> path_too = true) ->
  flag_free path_too (this s) ->
  flag_free path_too (this (snd (call execSync c s))).
Proof.
  intros Hc Hrun [Hcmd [Hpat Hpath]]. destruct c as [o|]; simpl.
  - rewrite invoke_eq. simpl this. unfold after_option, flag_free.
    assert (Ht : Opt.token o <> lit "--json").
    { intros E. apply Hc. f_equal. apply token_json. exact E. }
    destruct (Opt.clears_target o); simpl; unfold push;
      (split; [apply Forall_app; split; [exact Hcmd | constructor; [exact Ht | constructor]] |]).
    + split; [exact empty_not_json | intros _; exact empty_not_json].
    + split; assumption.
  - specialize (Hpath (Hrun eq_refl)). rewrite run_eq.
    assert (F : flag_free path_too (finalized (this s))).
    { unfold flag_free, finalized; simpl; unfold push. split.
      - repeat (apply Forall_app; split); try exact Hcmd;
          (constructor; [assumption | constructor]).
      - split; [exact Hpat | intros _; exact Hpath]. }
    destruct (execSync _); simpl this; [|exact F].
    exact F.
Qed.

Lemma chain_flag_free (path_too : bool) (cs : list Call) (s : Store) :
  ~ In (Option_ Opt.json) cs ->
  (In Run cs -> path_too = true) ->
  flag_free path_too (this s) ->
  flag_free path_too (this (snd (chain execSync cs s))).
Proof.
  revert s; induction cs as [|c cs IH]; intros s Hj Hr F.
  - exact F.
  - rewrite chain_cons. apply IH.
    + intros H. apply Hj. right. exact H.
    + intros H. apply Hr. right. exact H.
    + apply call_flag_free.
      * intros E. apply Hj. left. exact E.
      * intros E. apply Hr. left. exact E.
      * exact F.
Qed.

End Precondition.

(** C1, amended. On a new instance whose executable path is not the string
    ['--json'], after any chain of option calls and [run] calls that never
    calls [json], and provided the root path is not the string ['--json']
    when [run] is among the calls, [asJson] and [asObject] throw the error
    ['The json() method needs to be added'] and leave the store as it is. *)
Theorem decoding_requires_json_call JSON_parse execSync pat dir exe (cs : list Call) :
  ~ In (Option_ Opt.json) cs ->
  default_arg exe (lit "rg") <> lit "--json" ->
  (dir <> lit "--json" \/ ~ In Run cs) ->
  let s := snd (chain execSync cs (initial (constructor pat dir exe))) in
  asJson JSON_parse s =
  (Throw (Error (lit "The json() method needs to be added")), s) /\
  asObject JSON_parse s =
  (Throw (Error (lit "The json() method needs to be added")), s).
Proof.
  intros Hj Hexe Hdir s.
  assert (F : exists b, flag_free b (this s)).
  { destruct Hdir as [Hdir|Hrun].
    - exists true. apply chain_flag_free; [exact Hj | reflexivity |].
      split; [|split].
      + constructor; [exact Hexe | constructor].
      + apply quoted_not_json.
      + intros _. exact Hdir.
    - exists false. apply chain_flag_free; [exact Hj | contradiction |].
      split; [|split].
      + constructor; [exact Hexe | constructor].
      + apply quoted_not_json.
      + discriminate. }
  destruct F as [b [Hcmd _]].
  rewrite asJson_eq, asObject_eq, (includes_false _ _ Hcmd).
  split; reflexivity.
Qed.

(** [new RipGrep('x', '.').hidden().run().lineNumber()], then a view. *)
Lemma decoding_requires_json_call_witness :
  let execSync := fun _ : jsstring => Normal (prints (lit "a.txt:x")) in
  let cs := [Option_ Opt.hidden; Run; Option_ Opt.lineNumber] in
  let s := snd (chain execSync cs (initial (constructor (lit "x") (lit ".") None))) in
  (~ In (Option_ Opt.json) cs) /\
  default_arg None (lit "rg") <> lit "--json" /\
  (lit "." <> lit "--json" \/ ~ In Run cs) /\
  asJson JsonText.parse s =
  (Throw (Error (lit "The json() method needs to be added")), s) /\
  asObject JsonText.parse s =
  (Throw (Error (lit "The json() method needs to be added")), s).
Proof.
  intros execSync cs s.
  assert (H1 : ~ In (Option_ Opt.json) cs).
  { simpl. intros [H|[H|[H|[]]]]; discriminate H. }
  assert (H2 : default_arg None (lit "rg") <> lit "--json").
  { intros H; vm_compute in H; discriminate H. }
  assert (H3 : lit "." <> lit "--json" \/ ~ In Run cs).
  { left. intros H; vm_compute in H; discriminate H. }
  split; [exact H1|]. split; [exact H2|]. split; [exact H3|].
  exact (decoding_requires_json_call JsonText.parse execSync (lit "x") (lit ".")
           None cs H1 H2 H3).
Defined.

(** C1 as stated fails for the root path ['--json']: after
    [new RipGrep('x', '--json').run()] the command holds the path as a token,
    so the views decode the output instead of throwing the error. *)
Lemma decoding_requires_json_call_counterexample :
  let execSync := fun _ : jsstring => Normal (prints (jsonlit "{'type':'match'}")) in
  let cs := [Run] in
  let s := snd (chain execSync cs
                  (initial (constructor (lit "x") (lit "--json") None))) in
  (~ In (Option_ Opt.json) cs) /\
  asJson JsonText.parse s = (Normal (VStrings [jsonlit "{'type':'match'}"]), s) /\
  asObject JsonText.parse s =
  (Normal (VObjects [JObject [(lit "type", JString (lit "match"))]]), s).
Proof.
  split; [|split].
  - simpl. intros [H|[]]. discriminate H.
  - vm_compute. reflexivity.
  - vm_compute. reflexivity.
Qed.

(** ** What the views return *)

(** C5, amended. When the command holds ['--json'] and every line of the
    trimmed output parses to a JSON value other than [null], [asJson]
    returns, in order and as they stand in the output, exactly the lines
    whose parsed [type] is ['match']. *)
Theorem asJson_returns_match_lines JSON_parse (s : Store) :
  JSON_parse [] = Throw SyntaxError ->
  includes (command (this s)) (lit "--json") = true ->
  Forall (fun l => exists v, JSON_parse l = Normal v /\ v <> JNull)
    (lines (this s)) ->
  asJson JSON_parse s =
  (Normal (VStrings (filter (is_match_line JSON_parse) (lines (this s)))), s).
Proof.
  intros Hempty Hflag Hlines.
  rewrite asJson_eq, Hflag, (filter_array_match_lines _ _ Hempty Hlines).
  reflexivity.
Qed.

Lemma asJson_returns_match_lines_witness :
  let s := snd (chain (fun _ => Normal (prints three_records)) [Option_ Opt.json; Run]
                  (initial (constructor (lit "x") (lit ".") None))) in
  JsonText.parse [] = Throw SyntaxError /\
  includes (command (this s)) (lit "--json") = true /\
  Forall (fun l => exists v, JsonText.parse l = Normal v /\ v <> JNull)
    (lines (this s)) /\
  asJson JsonText.parse s =
  (Normal (VStrings
     [jsonlit "{'type':'match','data':{'path':{'text':'a.txt'},'line_number':3}}"]),
   s).
Proof.
  intros s.
  assert (H1 : JsonText.parse [] = Throw SyntaxError) by reflexivity.
  assert (H2 : includes (command (this s)) (lit "--json") = true)
    by (vm_compute; reflexivity).
  assert (H3 : Forall (fun l => exists v, JsonText.parse l = Normal v /\ v <> JNull)
                 (lines (this s))).
  { let ls := eval vm_compute in (lines (this s)) in
    change (lines (this s)) with ls.
    repeat (apply Forall_cons || apply Forall_nil);
      eexists; (split; [vm_compute; reflexivity | discriminate]). }
  split; [exact H1|]. split; [exact H2|]. split; [exact H3|].
  exact (asJson_returns_match_lines JsonText.parse s H1 H2 H3).
Defined.

(** C5 as stated fails for a line that is the JSON text [null]: it parses,
    and reading its [type] throws. *)
Lemma asJson_null_line_counterexample :
  let s := snd (chain (fun _ => Normal (prints (lit "null"))) [Option_ Opt.json; Run]
                  (initial (constructor (lit "x") (lit ".") None))) in
  Forall (fun l => exists v, JsonText.parse l = Normal v) (lines (this s)) /\
  asJson JsonText.parse s = (Throw TypeError, s).
Proof.
  intros s. split.
  - let ls := eval vm_compute in (lines (this s)) in
    change (lines (this s)) with ls.
    apply Forall_cons; [|apply Forall_nil].
    eexists. vm_compute. reflexivity.
  - vm_compute. reflexivity.
Qed.

(** C6. The two views agree on every store.  When [asJson] throws,
    [asObject] throws the same exception.  When [asJson] returns, its
    strings are the lines at the positions where the filter callback is
    truthy, and [asObject] returns as many objects, each the parse of the
    string [asJson] returns at that position. *)
Theorem asObject_agrees_with_asJson JSON_parse (s : Store) :
  match asJson JSON_parse s with
  | (Throw e, _) => asObject JSON_parse s = (Throw e, s)
  | (Normal v, _) =>
      exists kept objects,
        v = VStrings kept /\
        asObject JSON_parse s = (Normal (VObjects objects), s) /\
        Forall2 (fun i l => nth_error (lines (this s)) i = Some l)
          (positions (retained JSON_parse) 0 (lines (this s))) kept /\
        Forall2 (fun l o => JSON_parse l = Normal o) kept objects
  end.
Proof.
  rewrite asJson_eq, asObject_eq.
  destruct (includes _ _); [|reflexivity].
  destruct (filter_array _ _) as [kept|e] eqn:E; [|reflexivity].
  destruct (filter_array_normal JSON_parse _ _ E) as [Hkept Hparsed].
  assert (Hk : Forall (fun l => exists v, JSON_parse l = Normal v) kept).
  { rewrite Hkept. apply Forall_forall. intros l Hl.
    apply filter_In in Hl. rewrite Forall_forall in Hparsed.
    apply Hparsed. tauto. }
  destruct (map_array_parsed JSON_parse kept Hk) as [objects [Hm HF]].
  exists kept, objects. rewrite Hm. repeat split; try assumption.
  rewrite Hkept. exact (positions_filter (retained JSON_parse) [] _).
Qed.

(** C7, amended. When the command holds ['--json'], a line of the trimmed
    output does not parse, and every line before it parses to a value other
    than [null], both views throw the exception of [JSON.parse] on that line
    and return nothing. *)
Theorem decoding_throws_on_invalid_line JSON_parse (s : Store)
  (good rest : list jsstring) (bad : jsstring) (e : Exn) :
  includes (command (this s)) (lit "--json") = true ->
  lines (this s) = good ++ bad :: rest ->
  Forall (fun l => exists v, JSON_parse l = Normal v /\ v <> JNull) good ->
  JSON_parse bad = Throw e ->
  asJson JSON_parse s = (Throw e, s) /\
  asObject JSON_parse s = (Throw e, s).
Proof.
  intros Hflag Hlines Hgood Hbad.
  rewrite asJson_eq, asObject_eq, Hflag, Hlines,
    (filter_array_throw JSON_parse good rest bad e Hgood Hbad).
  split; reflexivity.
Qed.

Lemma decoding_throws_on_invalid_line_witness :
  let s := snd (chain (fun _ => Normal (prints cut_short)) [Option_ Opt.json; Run]
                  (initial (constructor (lit "x") (lit ".") None))) in
  let good := [jsonlit "{'type':'match','data':{}}"] in
  let bad := jsonlit "{'type':'mat" in
  includes (command (this s)) (lit "--json") = true /\
  lines (this s) = good ++ bad :: [] /\
  Forall (fun l => exists v, JsonText.parse l = Normal v /\ v <> JNull) good /\
  JsonText.parse bad = Throw SyntaxError /\
  asJson JsonText.parse s = (Throw SyntaxError, s) /\
  asObject JsonText.parse s = (Throw SyntaxError, s).
Proof.
  intros s good bad.
  assert (H1 : includes (command (this s)) (lit "--json") = true)
    by (vm_compute; reflexivity).
  assert (H2 : lines (this s) = good ++ bad :: []) by (vm_compute; reflexivity).
  assert (H3 : Forall (fun l => exists v, JsonText.parse l = Normal v /\ v <> JNull)
                 good).
  { apply Forall_cons; [|apply Forall_nil].
    eexists. split; [vm_compute; reflexivity | discriminate]. }
  assert (H4 : JsonText.parse bad = Throw SyntaxError) by (vm_compute; reflexivity).
  split; [exact H1|]. split; [exact H2|]. split; [exact H3|]. split; [exact H4|].
  exact (decoding_throws_on_invalid_line JsonText.parse s good [] bad
           SyntaxError H1 H2 H3 H4).
Defined.

(** C7 as stated fails when a [null] line comes before the line that does
    not parse: the views throw the [TypeError] of the property read, not the
    failure of the parse. *)
Lemma decoding_null_before_invalid_counterexample :
  let s := snd (chain (fun _ => Normal (prints (lit "null
{"))) [Option_ Opt.json; Run]
                  (initial (constructor (lit "x") (lit ".") None))) in
  lines (this s) = [lit "null"; lit "{"] /\
  JsonText.parse (lit "{") = Throw SyntaxError /\
  asJson JsonText.parse s = (Throw TypeError, s) /\
  asObject JsonText.parse s = (Throw TypeError, s).
Proof.
  repeat split; vm_compute; reflexivity.
Qed.

(** C10. When the output is the empty string and the command holds
    ['--json'], both views throw the failure of [JSON.parse] on the empty
    string: the one line of the split is the empty string. *)
Theorem decoding_empty_output_throws JSON_parse (s : Store) :
  JSON_parse [] = Throw SyntaxError ->
  output (this s) = [] ->
  includes (command (this s)) (lit "--json") = true ->
  lines (this s) = [[]] /\
  asJson JSON_parse s = (Throw SyntaxError, s) /\
  asObject JSON_parse s = (Throw SyntaxError, s).
Proof.
  intros Hempty Hout Hflag.
  assert (L : lines (this s) = [[]]) by (unfold lines; rewrite Hout; reflexivity).
  rewrite asJson_eq, asObject_eq, Hflag, L. simpl.
  rewrite (filter_callback_throw JSON_parse [] SyntaxError Hempty).
  repeat split.
Qed.

(** [new RipGrep('x', '/nonexistent').json()], then a view, before [run]
    and after a [run] whose child fails. *)
Lemma decoding_empty_output_throws_witness :
  let execSync := failing_child in
  let r := constructor (lit "x") (lit "/nonexistent") None in
  let before := snd (chain execSync [Option_ Opt.json] (initial r)) in
  let after := snd (chain execSync [Option_ Opt.json; Run] (initial r)) in
  JsonText.parse [] = Throw SyntaxError /\
  (output (this before) = [] /\
   includes (command (this before)) (lit "--json") = true /\
   asJson JsonText.parse before = (Throw SyntaxError, before) /\
   asObject JsonText.parse before = (Throw SyntaxError, before)) /\
  (output (this after) = [] /\
   includes (command (this after)) (lit "--json") = true /\
   asJson JsonText.parse after = (Throw SyntaxError, after) /\
   asObject JsonText.parse after = (Throw SyntaxError, after)).
Proof.
  intros execSync r before after.
  assert (H1 : JsonText.parse [] = Throw SyntaxError) by reflexivity.
  assert (B2 : output (this before) = []) by reflexivity.
  assert (B3 : includes (command (this before)) (lit "--json") = true)
    by (vm_compute; reflexivity).
  assert (A2 : output (this after) = []) by reflexivity.
  assert (A3 : includes (command (this after)) (lit "--json") = true)
    by (vm_compute; reflexivity).
  split; [exact H1|]. split.
  - split; [exact B2|]. split; [exact B3|].
    exact (proj2 (decoding_empty_output_throws JsonText.parse before H1 B2 B3)).
  - split; [exact A2|]. split; [exact A3|].
    exact (proj2 (decoding_empty_output_throws JsonText.parse after H1 A2 A3)).
Defined.

(** ** Scenarios *)

(** With [json()] and one match on line 3 of one file, [asObject] returns
    one record, with that line number and that path. *)
Example one_match_as_object :
  let s := snd (chain (fun _ => Normal (prints three_records)) [Option_ Opt.json; Run]
                  (initial (constructor (lit "he[l]{2}o") (lit "/tmp/fixtures")
                              None))) in
  fst (asObject JsonText.parse s) =
  Normal (VObjects
    [JObject
       [(lit "type", JString (lit "match"));
        (lit "data",
         JObject [(lit "path", JObject [(lit "text", JString (lit "a.txt"))]);
                  (lit "line_number", JNumber (lit "3"))])]]).
Proof. vm_compute. reflexivity. Qed.

(** With [json()] and no match record in the output, both views return an
    empty array. *)
Example no_match_record :
  let out := jsonlit "{'type':'summary','data':{}}
" in
  let s := snd (chain (fun _ => Normal (prints out)) [Option_ Opt.json; Run]
                  (initial (constructor (lit "x") (lit ".") None))) in
  fst (asJson JsonText.parse s) = Normal (VStrings []) /\
  fst (asObject JsonText.parse s) = Normal (VObjects []).
Proof. split; vm_compute; reflexivity. Qed.

(** [asString] returns the captured output as it is. *)
Example as_string_is_output (s : Store) :
  asString s = (Normal (VString (output (this s))), s).
Proof. reflexivity. Qed.

(** * Further properties of the class *)

(** ** Chains of calls *)

Lemma join_snoc_nonempty (sep : jsstring) (a : list jsstring) (y : jsstring) :
  a <> [] -> join sep (a ++ [y]) = join sep a ++ sep ++ y.
Proof.
  destruct a as [|x a]; [congruence|]. intros _. apply join_snoc.
Qed.

Lemma snoc_not_nil (a : list jsstring) (x : jsstring) : a ++ [x] <> [].
Proof.
  intros H. apply app_eq_nil in H. destruct H as [_ H]. discriminate H.
Qed.

Lemma command_persists execSync (cs : list Call) (s : Store) (t : jsstring) :
  In t (command (this s)) ->
  In t (command (this (snd (chain execSync cs s)))).
Proof.
  intros H. destruct (chain_extends execSync cs s) as [ext [E _]].
  rewrite E. apply in_or_app. left. exact H.
Qed.

(** X1. After [run], on any instance, [asString] returns the text the child
    printed when the child succeeded, and the output the instance had before
    when it failed. *)
Theorem asString_after_run execSync (s : Store) :
  asString (snd (run execSync s)) =
  (Normal (VString (match execSync (rgCommand (this s)) with
                    | Normal child => child_stdout child
                    | Throw _ => output (this s)
                    end)),
   snd (run execSync s)).
Proof.
  rewrite run_eq. destruct (execSync _); reflexivity.
Qed.

(** X2. [run] is not idempotent on the command: a second [run] executes the
    first command line followed by the pattern and the path once more. *)
Theorem second_run_repeats_target execSync (s : Store) :
  spawned (snd (run execSync (snd (run execSync s)))) =
  spawned s ++
  [rgCommand (this s);
   rgCommand (this s) ++ lit " " ++ pattern (this s)
     ++ lit " " ++ path (this s)].
Proof.
  assert (E : rgCommand (finalized (this s)) =
              rgCommand (this s) ++ lit " " ++ pattern (this s)
                ++ lit " " ++ path (this s)).
  { unfold rgCommand, finalized, command_push, push; simpl command.
    simpl pattern. simpl path.
    set (c := command (this s)). set (p := pattern (this s)).
    set (q := path (this s)).
    rewrite (join_snoc_nonempty (lit " ") (((c ++ [p]) ++ [q]) ++ [p]) q)
      by apply snoc_not_nil.
    rewrite (join_snoc_nonempty (lit " ") ((c ++ [p]) ++ [q]) p)
      by apply snoc_not_nil.
    rewrite <- !app_assoc. reflexivity. }
  rewrite (run_eq execSync (snd (run execSync s))).
  rewrite (run_eq execSync s).
  destruct (execSync (rgCommand (this s))); simpl this; simpl spawned;
    (change (rgCommand (set_output _ (finalized (this s))))
       with (rgCommand (finalized (this s))) || idtac);
    rewrite E; destruct (execSync _); simpl spawned;
    rewrite <- app_assoc; reflexivity.
Qed.

Lemma call_accounting execSync (c : Call) (s : Store) :
  let s' := snd (call execSync c s) in
  (List.length (spawned s') =
   List.length (spawned s) + (if is_run c then 1 else 0) /\
   List.length (command (this s')) =
   List.length (command (this s)) + (if is_run c then 2 else 1) /\
   List.length (console s') <=
   List.length (console s) + (if is_run c then 1 else 0))%nat.
Proof.
  destruct c as [o|]; simpl.
  - rewrite invoke_eq. unfold after_option, command_push, push.
    destruct (Opt.clears_target o); simpl; rewrite length_app; simpl; lia.
  - rewrite run_eq. unfold finalized, command_push, push.
    destruct (execSync _); simpl; rewrite !length_app; simpl; lia.
Qed.

(** X3. On a new instance, after any chain of calls, exactly one command
    line has been executed per [run] call and none per option call, the
    command holds the executable path, one token per option call and two
    per [run] call, and the console holds at most one entry per [run]
    call. *)
Theorem chain_accounting execSync pat dir exe (cs : list Call) :
  let s := snd (chain execSync cs (initial (constructor pat dir exe))) in
  let runs := List.length (filter is_run cs) in
  (List.length (spawned s) = runs /\
   List.length (command (this s)) = 1 + List.length cs + runs /\
   List.length (console s) <= runs)%nat.
Proof.
  assert (G : forall cs s0,
             let s := snd (chain execSync cs s0) in
             let runs := List.length (filter is_run cs) in
             (List.length (spawned s) = List.length (spawned s0) + runs /\
              List.length (command (this s)) =
              List.length (command (this s0)) + List.length cs + runs /\
              List.length (console s) <= List.length (console s0) + runs)%nat).
  { induction cs0 as [|c cs0 IH]; intros s0.
    - simpl. lia.
    - cbv zeta. rewrite chain_cons.
      destruct (call_accounting execSync c s0) as [A1 [A2 A3]].
      destruct (IH (snd (call execSync c s0))) as [B1 [B2 B3]].
      simpl filter. destruct (is_run c); simpl List.length; lia. }
  intros s runs. destruct (G cs (initial (constructor pat dir exe)))
    as [G1 [G2 G3]].
  simpl in G1, G2, G3. subst s runs. lia.
Qed.

(** X4. Once [json] has been called, anywhere in a chain and on any
    instance, the check of the decoding views passes: also when the call
    comes after [run], whose command line then had no ['--json']. *)
Theorem json_call_passes_check execSync (cs : list Call) (s : Store) :
  In (Option_ Opt.json) cs ->
  includes (command (this (snd (chain execSync cs s)))) (lit "--json") = true.
Proof.
  revert s; induction cs as [|c cs IH]; intros s H.
  - contradiction.
  - rewrite chain_cons. destruct H as [->|H].
    + apply includes_In. apply command_persists. simpl call.
      rewrite invoke_eq. simpl. unfold push. apply in_or_app. right.
      left. reflexivity.
    + apply IH. exact H.
Qed.

(** [new RipGrep('x', '.').run().json()]: the executed command line has no
    flag, the check passes. *)
Lemma json_call_passes_check_witness :
  let cs := [Run; Option_ Opt.json] in
  let s := snd (chain (fun _ => Normal (prints (lit "a.txt:x"))) cs
                  (initial (constructor (lit "x") (lit ".") None))) in
  In (Option_ Opt.json) cs /\
  spawned s = [jsonlit "rg 'x' ."] /\
  includes (command (this s)) (lit "--json") = true.
Proof.
  intros cs s.
  assert (H : In (Option_ Opt.json) cs) by (right; left; reflexivity).
  split; [exact H|]. split; [reflexivity|].
  exact (json_call_passes_check (fun _ => Normal (prints (lit "a.txt:x"))) cs
           (initial (constructor (lit "x") (lit ".") None)) H).
Defined.

(** X5. Option calls made after the last [run] of a chain change neither
    what was executed nor the output nor the console: they are absent from
    every executed command line. *)
Theorem options_after_run_not_executed execSync (cs : list Call)
  (os : list Opt.t) (s : Store) :
  let s1 := snd (chain execSync cs s) in
  let s2 := snd (chain execSync (cs ++ map Option_ os) s) in
  spawned s2 = spawned s1 /\
  console s2 = console s1 /\
  output (this s2) = output (this s1) /\
  command (this s2) = command (this s1) ++ map Opt.token os.
Proof.
  intros s1 s2. subst s2. rewrite chain_app. fold s1.
  rewrite chain_options. simpl.
  rewrite after_options_output, after_options_command.
  repeat split; reflexivity.
Qed.

Lemma call_target execSync (c : Call) (s : Store) :
  let s' := snd (call execSync c s) in
  pattern (this s') = (if clears c then [] else pattern (this s)) /\
  path (this s') = (if clears c then [] else path (this s)).
Proof.
  destruct c as [o|]; simpl.
  - rewrite invoke_eq. unfold after_option.
    destruct (Opt.clears_target o); split; reflexivity.
  - rewrite run_eq. destruct (execSync _); split; reflexivity.
Qed.

(** X6. On a new instance, after any chain of calls, the pattern is the
    quoted pattern of the constructor and the path the path of the
    constructor as long as neither [pcre2Version] nor [typeList] has been
    called, and both are the empty string from then on: no call restores
    them. *)
Theorem target_fields_after_chain execSync pat dir exe (cs : list Call) :
  let s := snd (chain execSync cs (initial (constructor pat dir exe))) in
  pattern (this s) = (if existsb clears cs then [] else quoted pat) /\
  path (this s) = (if existsb clears cs then [] else dir).
Proof.
  assert (G : forall cs s0,
             let s := snd (chain execSync cs s0) in
             pattern (this s) =
             (if existsb clears cs then [] else pattern (this s0)) /\
             path (this s) =
             (if existsb clears cs then [] else path (this s0))).
  { induction cs0 as [|c cs0 IH]; intros s0.
    - split; reflexivity.
    - cbv zeta. rewrite chain_cons.
      destruct (call_target execSync c s0) as [A1 A2].
      destruct (IH (snd (call execSync c s0))) as [B1 B2].
      rewrite B1, B2, A1, A2. simpl existsb.
      destruct (clears c); simpl; destruct (existsb clears cs0);
        split; reflexivity. }
  intros s. exact (G cs (initial (constructor pat dir exe))).
Qed.

(** ** The option table, again *)

Lemma quoted_inj (a b : jsstring) : quoted a = quoted b -> a = b.
Proof.
  unfold quoted. intros H. injection H as H. apply app_inv_tail in H. exact H.
Qed.

(** X7. Two option calls push the same token only when they are the same
    method with the same argument: the command records the option calls
    without loss. *)
Theorem token_injective (o1 o2 : Opt.t) :
  Opt.token o1 = Opt.token o2 -> o1 = o2.
Proof.
  destruct o1, o2; intros H; try reflexivity;
    try (exfalso; cbv in H; discriminate H);
    f_equal; unfold Opt.token in H;
    first [ apply quoted_inj; apply (app_inv_head _ _ _ H)
          | exact (app_inv_head _ _ _ H) ].
Qed.

Lemma token_injective_witness :
  Opt.token (Opt.glob (lit "*.js")) = jsonlit "--glob '*.js'" /\
  Opt.glob (lit "*.js") = Opt.glob (lit "*.js").
Proof.
  split.
  - reflexivity.
  - apply (token_injective (Opt.glob (lit "*.js")) (Opt.glob (lit "*.js"))).
    reflexivity.
Defined.

(** ** The decoding views, again *)

Section Views.

Variable JSON_parse : jsstring -> Completion Json.

(** The callback returns exactly on the lines that parse to a value other
    than [null]. *)
Lemma filter_callback_returns (l : jsstring) :
  (exists r, filter_callback JSON_parse l = Normal r) <->
  (exists v, JSON_parse l = Normal v /\ v <> JNull).
Proof.
  unfold filter_callback. destruct (JSON_parse l) as [v|e]; simpl.
  - destruct v; simpl; split;
      try (intros _; eexists; split; [reflexivity | discriminate]);
      try (intros _; eexists; reflexivity).
    + intros [r H]. discriminate H.
    + intros [v [H Hv]]. injection H as <-. contradiction.
  - split; [intros [r H] | intros [v [H _]]]; discriminate H.
Qed.

(** The callback is truthy exactly on the non-empty lines that parse to a
    match record. *)
Lemma retained_true (l : jsstring) :
  retained JSON_parse l = true <->
  l <> [] /\ exists v, JSON_parse l = Normal v /\ is_match_record v = true.
Proof.
  unfold retained, filter_callback. destruct (JSON_parse l) as [v|e]; simpl.
  - destruct v; simpl;
      try (split; [discriminate | intros [_ [v [H Hv]]]; injection H as <-;
                                   discriminate Hv]).
    destruct (strict_equals _ _) eqn:E; simpl.
    + destruct l as [|c l]; simpl; split.
      * discriminate.
      * intros [H _]. contradiction.
      * intros _. split; [discriminate|]. eexists. split; [reflexivity|].
        exact E.
      * intros _. reflexivity.
    + split; [discriminate|]. intros [_ [v [H Hv]]]. injection H as <-.
      simpl in Hv. rewrite E in Hv. discriminate Hv.
  - split; [discriminate|]. intros [_ [v [H _]]]. discriminate H.
Qed.

Lemma filter_array_returns (ls : list jsstring) :
  Forall (fun l => exists v, JSON_parse l = Normal v /\ v <> JNull) ls ->
  filter_array (filter_callback JSON_parse) ls =
  Normal (filter (retained JSON_parse) ls).
Proof.
  induction 1 as [|l ls Hl _ IH]; simpl.
  - reflexivity.
  - apply filter_callback_returns in Hl. destruct Hl as [r Hr].
    unfold retained. rewrite Hr, IH. simpl.
    destruct (to_boolean r); reflexivity.
Qed.

Lemma filter_array_returned (ls kept : list jsstring) :
  filter_array (filter_callback JSON_parse) ls = Normal kept ->
  Forall (fun l => exists v, JSON_parse l = Normal v /\ v <> JNull) ls.
Proof.
  revert kept; induction ls as [|l ls IH]; intros kept; simpl.
  - constructor.
  - destruct (filter_callback JSON_parse l) as [r|e] eqn:E; simpl;
      [|discriminate].
    destruct (filter_array _ ls) as [rest|e]; simpl; [|discriminate].
    intros _. constructor.
    + apply filter_callback_returns. exists r. exact E.
    + exact (IH rest eq_refl).
Qed.

Lemma map_array_match_records (ls : list jsstring) (values : list Json) :
  Forall2 (fun l v => JSON_parse l = Normal v) ls values ->
  map_array JSON_parse (filter (is_match_line JSON_parse) ls) =
  Normal (filter is_match_record values).
Proof.
  induction 1 as [|l v ls values Hv _ IH]; simpl.
  - reflexivity.
  - unfold is_match_line at 1. rewrite Hv.
    destruct (is_match_record v); simpl; [rewrite Hv|]; rewrite IH; reflexivity.
Qed.

End Views.

(** X8. Whatever the output is, when [asJson] returns, it leaves the store
    as it was, and each string it returns is a non-empty line of the trimmed
    output that parses to a record whose [type] is ['match']. *)
Theorem asJson_returns_only_match_lines JSON_parse (s s' : Store)
  (kept : list jsstring) :
  asJson JSON_parse s = (Normal (VStrings kept), s') ->
  s' = s /\
  Forall (fun l => l <> [] /\ In l (lines (this s)) /\
                   exists v, JSON_parse l = Normal v /\
                             is_match_record v = true) kept.
Proof.
  rewrite asJson_eq. destruct (includes _ _); [|discriminate].
  destruct (filter_array _ _) as [kept'|e] eqn:E; [|discriminate].
  intros H. injection H as <- <-. split; [reflexivity|].
  destruct (filter_array_normal JSON_parse _ _ E) as [-> _].
  apply Forall_forall. intros l Hl. apply filter_In in Hl.
  destruct Hl as [Hin Hr]. apply retained_true in Hr.
  destruct Hr as [Hne Hv]. repeat split; assumption.
Qed.

Lemma asJson_returns_only_match_lines_witness :
  let s := snd (chain (fun _ => Normal (prints three_records)) [Option_ Opt.json; Run]
                  (initial (constructor (lit "x") (lit ".") None))) in
  let kept :=
    [jsonlit "{'type':'match','data':{'path':{'text':'a.txt'},'line_number':3}}"] in
  asJson JsonText.parse s = (Normal (VStrings kept), s) /\
  Forall (fun l => l <> [] /\ In l (lines (this s)) /\
                   exists v, JsonText.parse l = Normal v /\
                             is_match_record v = true) kept.
Proof.
  intros s kept.
  assert (H : asJson JsonText.parse s = (Normal (VStrings kept), s))
    by (vm_compute; reflexivity).
  split; [exact H|].
  exact (proj2 (asJson_returns_only_match_lines JsonText.parse s s kept H)).
Defined.

(** X9. Whatever the output is, when [asObject] returns, it leaves the
    store as it was, and every object it returns is a record whose [type]
    is ['match']. *)
Theorem asObject_returns_only_match_records JSON_parse (s s' : Store)
  (objects : list Json) :
  asObject JSON_parse s = (Normal (VObjects objects), s') ->
  s' = s /\ Forall (fun o => is_match_record o = true) objects.
Proof.
  rewrite asObject_eq. destruct (includes _ _); [|discriminate].
  destruct (filter_array _ _) as [kept|e] eqn:E; [|discriminate].
  destruct (map_array _ _) as [objects'|e] eqn:M; [|discriminate].
  intros H. injection H as <- <-. split; [reflexivity|].
  destruct (filter_array_normal JSON_parse _ _ E) as [-> Hparsed].
  clear E. revert objects' M.
  induction (lines (this s)) as [|l ls IH]; simpl; intros objects' M.
  - injection M as <-. constructor.
  - inversion Hparsed as [|l0 ls0 _ Hls]; subst.
    destruct (retained JSON_parse l) eqn:R.
    + apply retained_true in R. destruct R as [_ [v [Hv Hm]]].
      simpl in M. rewrite Hv in M. simpl in M.
      destruct (map_array _ _) as [rest|e]; simpl in M; [|discriminate].
      injection M as <-. constructor; [exact Hm|].
      exact (IH Hls rest eq_refl).
    + exact (IH Hls objects' M).
Qed.

Lemma asObject_returns_only_match_records_witness :
  let s := snd (chain (fun _ => Normal (prints three_records)) [Option_ Opt.json; Run]
                  (initial (constructor (lit "x") (lit ".") None))) in
  exists objects,
    asObject JsonText.parse s = (Normal (VObjects objects), s) /\
    Forall (fun o => is_match_record o = true) objects.
Proof.
  intros s. eexists. 
  assert (H : asObject JsonText.parse s =
              (Normal (VObjects
                 [JObject
                    [(lit "type", JString (lit "match"));
                     (lit "data",
                      JObject
                        [(lit "path",
                          JObject [(lit "text", JString (lit "a.txt"))]);
                         (lit "line_number", JNumber (lit "3"))])]]), s))
    by (vm_compute; reflexivity).
  split; [exact H|].
  exact (proj2 (asObject_returns_only_match_records JsonText.parse s s _ H)).
Defined.

(** X10. With ['--json'] in the command, each view returns if and only if
    every line of the trimmed output parses to a JSON value other than
    [null]; otherwise it throws. *)
Theorem decoding_returns_iff JSON_parse (s : Store) :
  includes (command (this s)) (lit "--json") = true ->
  let good :=
    Forall (fun l => exists v, JSON_parse l = Normal v /\ v <> JNull)
      (lines (this s)) in
  ((exists kept, asJson JSON_parse s = (Normal (VStrings kept), s)) <-> good)
  /\
  ((exists objects, asObject JSON_parse s = (Normal (VObjects objects), s))
   <-> good).
Proof.
  intros Hflag good. subst good. rewrite asJson_eq, asObject_eq, Hflag.
  split; split.
  - intros [kept H].
    destruct (filter_array _ _) as [kept'|e] eqn:E; [|discriminate].
    exact (filter_array_returned JSON_parse _ _ E).
  - intros H. rewrite (filter_array_returns JSON_parse _ H).
    eexists. reflexivity.
  - intros [objects H].
    destruct (filter_array _ _) as [kept'|e] eqn:E; [|discriminate].
    exact (filter_array_returned JSON_parse _ _ E).
  - intros H. rewrite (filter_array_returns JSON_parse _ H).
    assert (K : Forall (fun l => exists v, JSON_parse l = Normal v)
                  (filter (retained JSON_parse) (lines (this s)))).
    { apply Forall_forall. intros l Hl. apply filter_In in Hl.
      rewrite Forall_forall in H. destruct (H l (proj1 Hl)) as [v [Hv _]].
      exists v. exact Hv. }
    destruct (map_array_parsed JSON_parse _ K) as [objects [M _]].
    rewrite M. exists objects. reflexivity.
Qed.

Lemma decoding_returns_iff_witness :
  let s := snd (chain (fun _ => Normal (prints cut_short)) [Option_ Opt.json; Run]
                  (initial (constructor (lit "x") (lit ".") None))) in
  includes (command (this s)) (lit "--json") = true /\
  ~ (exists kept, asJson JsonText.parse s = (Normal (VStrings kept), s)) /\
  ~ Forall (fun l => exists v, JsonText.parse l = Normal v /\ v <> JNull)
      (lines (this s)).
Proof.
  intros s.
  assert (H : includes (command (this s)) (lit "--json") = true)
    by (vm_compute; reflexivity).
  assert (N : ~ (exists kept,
                    asJson JsonText.parse s = (Normal (VStrings kept), s))).
  { intros [kept K].
    assert (T : fst (asJson JsonText.parse s) = Throw SyntaxError)
      by (vm_compute; reflexivity).
    rewrite K in T. discriminate T. }
  split; [exact H|]. split; [exact N|].
  intros G. apply N.
  exact (proj2 (proj1 (decoding_returns_iff JsonText.parse s H)) G).
Defined.

(** X11. With ['--json'] in the command, when every line of the trimmed
    output parses to a value other than [null], [asObject] returns, in
    order, the parsed values that are match records, and [asJson] the lines
    they come from. *)
Theorem asObject_returns_match_records JSON_parse (s : Store)
  (values : list Json) :
  JSON_parse [] = Throw SyntaxError ->
  includes (command (this s)) (lit "--json") = true ->
  Forall2 (fun l v => JSON_parse l = Normal v) (lines (this s)) values ->
  ~ In JNull values ->
  asObject JSON_parse s =
  (Normal (VObjects (filter is_match_record values)), s) /\
  asJson JSON_parse s =
  (Normal (VStrings (filter (is_match_line JSON_parse) (lines (this s)))), s).
Proof.
  intros Hempty Hflag Hvalues Hnull.
  assert (G : Forall (fun l => exists v, JSON_parse l = Normal v /\ v <> JNull)
                (lines (this s))).
  { clear Hflag. induction Hvalues as [|l v ls values Hv _ IH].
    - constructor.
    - constructor.
      + exists v. split; [exact Hv|]. intros ->. apply Hnull. left. reflexivity.
      + apply IH. intros H. apply Hnull. right. exact H. }
  rewrite asJson_eq, asObject_eq, Hflag,
    (filter_array_match_lines JSON_parse _ Hempty G),
    (map_array_match_records JSON_parse _ _ Hvalues).
  split; reflexivity.
Qed.

(** An output of three lines, none of them [null]. *)
Lemma asObject_returns_match_records_witness :
  let s := snd (chain (fun _ => Normal (prints three_records)) [Option_ Opt.json; Run]
                  (initial (constructor (lit "x") (lit ".") None))) in
  let begin_ :=
    JObject [(lit "type", JString (lit "begin"));
             (lit "data",
              JObject [(lit "path",
                        JObject [(lit "text", JString (lit "a.txt"))])])] in
  let match_ :=
    JObject [(lit "type", JString (lit "match"));
             (lit "data",
              JObject [(lit "path",
                        JObject [(lit "text", JString (lit "a.txt"))]);
                       (lit "line_number", JNumber (lit "3"))])] in
  let end_ :=
    JObject [(lit "type", JString (lit "end")); (lit "data", JObject [])] in
  let values := [begin_; match_; end_] in
  JsonText.parse [] = Throw SyntaxError /\
  includes (command (this s)) (lit "--json") = true /\
  Forall2 (fun l v => JsonText.parse l = Normal v) (lines (this s)) values /\
  ~ In JNull values /\
  asObject JsonText.parse s = (Normal (VObjects [match_]), s).
Proof.
  intros s begin_ match_ end_ values.
  assert (H1 : JsonText.parse [] = Throw SyntaxError) by reflexivity.
  assert (H2 : includes (command (this s)) (lit "--json") = true)
    by (vm_compute; reflexivity).
  assert (H3 : Forall2 (fun l v => JsonText.parse l = Normal v)
                 (lines (this s)) values).
  { let ls := eval vm_compute in (lines (this s)) in
    change (lines (this s)) with ls.
    repeat (apply Forall2_cons || apply Forall2_nil); vm_compute; reflexivity. }
  assert (H4 : ~ In JNull values).
  { simpl. intros [H|[H|[H|[]]]]; discriminate H. }
  split; [exact H1|]. split; [exact H2|]. split; [exact H3|].
  split; [exact H4|].
  exact (proj1 (asObject_returns_match_records JsonText.parse s values
                  H1 H2 H3 H4)).
Defined.

(** ** Lines of the output *)

Lemma tight_ends (l : jsstring) :
  tight l = true ->
  (exists a l', l = a :: l' /\ is_js_space a = false) /\
  (exists b l', rev l = b :: l' /\ is_js_space b = false) /\
  ~ In newline l.
Proof.
  unfold tight. destruct l as [|a l']; [discriminate|].
  destruct (rev (a :: l')) as [|b l''] eqn:R; [discriminate|].
  rewrite !andb_true_iff, !negb_true_iff. intros [[Ha Hb] Hn].
  split; [|split].
  - exists a, l'. split; [reflexivity | exact Ha].
  - exists b, l''. split; [reflexivity | exact Hb].
  - intros Hin.
    assert (E : existsb (N.eqb newline) (a :: l') = true).
    { apply existsb_exists. exists newline. split; [exact Hin|].
      apply N.eqb_refl. }
    rewrite E in Hn. discriminate Hn.
Qed.

Lemma trim_between (x : jsstring) (a b : codeunit) (x' y : jsstring) :
  x = a :: x' -> rev x = b :: y ->
  is_js_space a = false -> is_js_space b = false ->
  trim x = x /\ trim (x ++ [newline]) = x.
Proof.
  intros Hx Hr Ha Hb. unfold trim, trimEnd. split.
  - rewrite Hx at 1. simpl trimStart. rewrite Ha. rewrite <- Hx, Hr.
    simpl trimStart. rewrite Hb, <- Hr. apply rev_involutive.
  - rewrite Hx at 1. simpl trimStart. rewrite Ha.
    change (a :: x' ++ [newline]) with ((a :: x') ++ [newline]).
    rewrite <- Hx, rev_unit.
    change (trimStart (newline :: rev x)) with (trimStart (rev x)).
    rewrite Hr. simpl trimStart. rewrite Hb, <- Hr. apply rev_involutive.
Qed.

Lemma split_no_sep (sep : codeunit) (l : jsstring) :
  ~ In sep l -> split sep l = [l].
Proof.
  induction l as [|c l IH]; intros H; simpl.
  - reflexivity.
  - destruct (N.eqb_spec c sep) as [->|_].
    + exfalso. apply H. left. reflexivity.
    + rewrite IH; [reflexivity|]. intros Hin. apply H. right. exact Hin.
Qed.

Lemma split_app_sep (sep : codeunit) (l s : jsstring) :
  ~ In sep l -> split sep (l ++ sep :: s) = l :: split sep s.
Proof.
  induction l as [|c l IH]; intros H; simpl.
  - rewrite N.eqb_refl. reflexivity.
  - destruct (N.eqb_spec c sep) as [->|_].
    + exfalso. apply H. left. reflexivity.
    + rewrite IH; [reflexivity|]. intros Hin. apply H. right. exact Hin.
Qed.

Lemma split_join (sep : codeunit) (ls : list jsstring) :
  ls <> [] -> Forall (fun l => ~ In sep l) ls ->
  split sep (join [sep] ls) = ls.
Proof.
  intros Hne H. revert Hne.
  induction H as [|l ls Hl Hls IH]; intros Hne;
    [exfalso; apply Hne; reflexivity|].
  destruct ls as [|l2 ls].
  - simpl. apply split_no_sep. exact Hl.
  - change (join [sep] (l :: l2 :: ls))
      with (l ++ sep :: join [sep] (l2 :: ls)).
    rewrite (split_app_sep sep l _ Hl), IH; [reflexivity | discriminate].
Qed.

Lemma join_tight_ends (ls : list jsstring) :
  ls <> [] -> Forall (fun l => tight l = true) ls ->
  (exists a x', join [newline] ls = a :: x' /\ is_js_space a = false) /\
  (exists b y, rev (join [newline] ls) = b :: y /\ is_js_space b = false).
Proof.
  intros Hne H. revert Hne.
  induction H as [|l ls Hl Hls IH]; intros Hne;
    [exfalso; apply Hne; reflexivity|].
  destruct (tight_ends l Hl) as [[a [l' [El Ha]]] [[b [y [Er Hb]]] _]].
  destruct ls as [|l2 ls].
  - simpl. split; [exists a, l' | exists b, y]; split; assumption.
  - change (join [newline] (l :: l2 :: ls))
      with (l ++ [newline] ++ join [newline] (l2 :: ls)).
    split.
    + exists a. eexists. split; [|exact Ha]. rewrite El. reflexivity.
    + destruct IH as [_ [b2 [y2 [E2 Hb2]]]]; [discriminate|].
      exists b2. eexists. split; [|exact Hb2].
      rewrite !rev_app_distr, E2. reflexivity.
Qed.

(** X12. When the output is records as the tool prints them, one per line,
    each without a line feed inside and without white space at its ends,
    with or without a line feed after the last one, the lines the views
    decode are exactly those records: the trim removes the final line feed
    and the split yields no empty piece. *)
Theorem lines_of_printed_records (r : RipGrep) (ls : list jsstring) :
  ls <> [] ->
  Forall (fun l => tight l = true) ls ->
  output r = join [newline] ls \/ output r = join [newline] ls ++ [newline] ->
  lines r = ls.
Proof.
  intros Hne Ht Hout.
  destruct (join_tight_ends ls Hne Ht)
    as [[a [x' [Ex Ha]]] [b [y [Er Hb]]]].
  destruct (trim_between (join [newline] ls) a b x' y Ex Er Ha Hb)
    as [T1 T2].
  unfold lines. destruct Hout as [-> | ->]; rewrite ?T1, ?T2;
    apply split_join; try exact Hne;
    apply Forall_forall; intros l Hl; rewrite Forall_forall in Ht;
    exact (proj2 (proj2 (tight_ends l (Ht l Hl)))).
Qed.

Lemma lines_of_printed_records_witness :
  let r := set_output three_records (constructor (lit "x") (lit ".") None) in
  let ls :=
    [jsonlit "{'type':'begin','data':{'path':{'text':'a.txt'}}}";
     jsonlit "{'type':'match','data':{'path':{'text':'a.txt'},'line_number':3}}";
     jsonlit "{'type':'end','data':{}}"] in
  ls <> [] /\
  Forall (fun l => tight l = true) ls /\
  output r = join [newline] ls ++ [newline] /\
  lines r = ls.
Proof.
  intros r ls.
  assert (H1 : ls <> []) by discriminate.
  assert (H2 : Forall (fun l => tight l = true) ls)
    by (repeat (apply Forall_cons || apply Forall_nil); vm_compute; reflexivity).
  assert (H3 : output r = join [newline] ls ++ [newline])
    by (vm_compute; reflexivity).
  split; [exact H1|]. split; [exact H2|]. split; [exact H3|].
  exact (lines_of_printed_records r ls H1 H2 (or_intror H3)).
Defined.

Lemma trimStart_blank (s : jsstring) :
  forallb is_js_space s = true -> trimStart s = [].
Proof.
  induction s as [|c s IH]; simpl.
  - reflexivity.
  - rewrite andb_true_iff. intros [-> H]. exact (IH H).
Qed.

(** X13. With ['--json'] in the command, when the output holds nothing but
    white space (a lone line feed, say), the trim leaves the empty string
    and both views throw what [JSON.parse] throws on the empty string. *)
Theorem decoding_blank_output_throws JSON_parse (s : Store) (e : Exn) :
  JSON_parse [] = Throw e ->
  forallb is_js_space (output (this s)) = true ->
  includes (command (this s)) (lit "--json") = true ->
  asJson JSON_parse s = (Throw e, s) /\
  asObject JSON_parse s = (Throw e, s).
Proof.
  intros Hempty Hblank Hflag.
  assert (L : lines (this s) = [[]]).
  { unfold lines, trim. rewrite (trimStart_blank _ Hblank). reflexivity. }
  rewrite asJson_eq, asObject_eq, Hflag, L. simpl.
  rewrite (filter_callback_throw JSON_parse [] e Hempty).
  split; reflexivity.
Qed.

Lemma decoding_blank_output_throws_witness :
  let s := snd (chain (fun _ => Normal (prints [newline; 32; newline]))
                  [Option_ Opt.json; Run]
                  (initial (constructor (lit "x") (lit ".") None))) in
  JsonText.parse [] = Throw SyntaxError /\
  forallb is_js_space (output (this s)) = true /\
  includes (command (this s)) (lit "--json") = true /\
  asJson JsonText.parse s = (Throw SyntaxError, s) /\
  asObject JsonText.parse s = (Throw SyntaxError, s).
Proof.
  intros s.
  assert (H1 : JsonText.parse [] = Throw SyntaxError) by reflexivity.
  assert (H2 : forallb is_js_space (output (this s)) = true)
    by (vm_compute; reflexivity).
  assert (H3 : includes (command (this s)) (lit "--json") = true)
    by (vm_compute; reflexivity).
  split; [exact H1|]. split; [exact H2|]. split; [exact H3|].
  exact (decoding_blank_output_throws JsonText.parse s SyntaxError H1 H2 H3).
Defined.

(** X14. The three views, whether they return or throw, leave the instance,
    the console and the executed commands as they were, so a view called
    again gives the same result. *)
Theorem views_leave_store JSON_parse (s : Store) :
  (snd (asString s) = s /\
   snd (asJson JSON_parse s) = s /\
   snd (asObject JSON_parse s) = s) /\
  (asString (snd (asString s)) = asString s /\
   asJson JSON_parse (snd (asJson JSON_parse s)) = asJson JSON_parse s /\
   asObject JSON_parse (snd (asObject JSON_parse s)) = asObject JSON_parse s).
Proof.
  assert (A : snd (asJson JSON_parse s) = s).
  { rewrite asJson_eq. destruct (includes _ _); [|reflexivity].
    destruct (filter_array _ _); reflexivity. }
  assert (B : snd (asObject JSON_parse s) = s).
  { rewrite asObject_eq. destruct (includes _ _); [|reflexivity].
    destruct (filter_array _ _); [|reflexivity].
    destruct (map_array _ _); reflexivity. }
  split; [split; [reflexivity | split; assumption]|].
  rewrite A, B. repeat split.
Qed.
